(** * WebRTC signaling relay: room directory and message routers

    Shallow embedding of the two servers of the repository:

    - [RoomServer]: the room-based signaling server (rooms, clientToRoom,
      handleJoinRoom, broadcastToRoom, handleDisconnect and the three
      socket callbacks);
    - [PeerServer]: the single-group relay of src/index.ts (peers,
      broadcastToOthers and its socket callbacks).

    Both handlers start from the outcome of [JSON.parse]; the values it
    produces are modelled in [JS]. *)

From Stdlib Require Import SpecFloat.
From stdpp Require Import gmap strings list.

(** ** JavaScript values as produced by JSON.parse *)
Module JS.

(** Arrays and objects are references: each carries the address it was
    allocated at, which is what [Map] compares when one is used as a key. *)
Definition addr := positive.

(** A JSON number is an IEEE 754 double. *)
Definition number := spec_float.

#[warnings="-register-all"] Inductive json : Type :=
| JNull
| JBool (b : bool)
| JNum (x : number)
| JStr (s : string)
| JArr (a : addr) (items : list json)
| JObj (a : addr) (props : list (string * json)).

(** Own property of an object; [None] is [undefined]. [props] lists the
    properties of the parsed object, each name once. *)
Fixpoint own (props : list (string * json)) (name : string) : option json :=
  match props with
  | [] => None
  | (k, v) :: rest => if String.eqb k name then Some v else own rest name
  end.

(** [v.name] for a value other than [null] and for a name that no
    prototype defines ([type] and [roomId] are such names): only objects
    have it. Reading a property of [null] throws; the callers test for
    [JNull] first. *)
Definition prop (v : json) (name : string) : option json :=
  match v with
  | JObj _ props => own props name
  | _ => None
  end.

Definition number_falsy (x : number) : bool :=
  match x with
  | S754_zero _ | S754_nan => true
  | _ => false
  end.

(** ToBoolean on a JSON value. *)
Definition truthy (v : json) : bool :=
  match v with
  | JNull => false
  | JBool b => b
  | JNum x => negb (number_falsy x)
  | JStr s => negb (String.eqb s "")
  | JArr _ _ | JObj _ _ => true
  end.

(** [v === s] for a string literal [s]; [None] is [undefined]. *)
Definition strict_eq_str (v : option json) (s : string) : bool :=
  match v with
  | Some (JStr t) => String.eqb t s
  | _ => false
  end.

(** Whether [`${v}`] throws a TypeError. The template converts [v] to a
    string: a primitive always converts; an object with an own property
    [toString] does not (the property holds a JSON value, which cannot be
    called, and [valueOf] gives back the object), any other object prints
    as [[object Object]]; an array is joined, so it throws when one of its
    elements does. *)
Fixpoint to_string_throws (v : json) : bool :=
  match v with
  | JObj _ props =>
      match own props "toString" with Some _ => true | None => false end
  | JArr _ items => existsb to_string_throws items
  | _ => false
  end.

(** [typeof v === "string"] *)
Definition typeof_string (v : option json) : bool :=
  match v with
  | Some (JStr _) => true
  | _ => false
  end.

(** A number as a [Map] compares it (SameValueZero): +0 and -0 are one
    key. *)
Inductive key_number : Type :=
| KZero
| KInfinity (negative : bool)
| KNaN
| KFinite (negative : bool) (m : positive) (e : Z).

Definition fold_zero (x : number) : key_number :=
  match x with
  | S754_zero _ => KZero
  | S754_infinity s => KInfinity s
  | S754_nan => KNaN
  | S754_finite s m e => KFinite s m e
  end.

(** A room id as the two maps hold it: a primitive by value, an array or
    object by its address. The address determines the object, so a
    reference carries along whether its conversion to a string throws, which
    is all the code ever asks of it besides its identity. *)
Inductive key : Type :=
| KNull
| KBool (b : bool)
| KNum (x : key_number)
| KStr (s : string)
| KRef (a : addr) (throws : bool).

Definition to_key (v : json) : key :=
  match v with
  | JNull => KNull
  | JBool b => KBool b
  | JNum x => KNum (fold_zero x)
  | JStr s => KStr s
  | JArr a _ | JObj a _ => KRef a (to_string_throws v)
  end.

(** [!k] for a key read back from a map. *)
Definition falsy (k : key) : bool :=
  match k with
  | KNull => true
  | KBool b => negb b
  | KNum KZero | KNum KNaN => true
  | KNum _ => false
  | KStr s => String.eqb s ""
  | KRef _ _ => false
  end.

(** Whether [`${k}`] throws, for a room id read back from a map. *)
Definition unprintable (k : key) : bool :=
  match k with
  | KRef _ throws => throws
  | _ => false
  end.

#[global] Instance key_number_eq_dec : EqDecision key_number.
Proof. solve_decision. Defined.

#[global] Instance key_eq_dec : EqDecision key.
Proof. solve_decision. Defined.

Definition key_number_enc (x : key_number)
    : unit + bool + unit + bool * positive * Z :=
  match x with
  | KZero => inl (inl (inl tt))
  | KInfinity s => inl (inl (inr s))
  | KNaN => inl (inr tt)
  | KFinite s m e => inr (s, m, e)
  end.

Definition key_number_dec (c : unit + bool + unit + bool * positive * Z)
    : key_number :=
  match c with
  | inl (inl (inl _)) => KZero
  | inl (inl (inr s)) => KInfinity s
  | inl (inr _) => KNaN
  | inr (s, m, e) => KFinite s m e
  end.

#[global] Program Instance key_number_countable : Countable key_number :=
  inj_countable' key_number_enc key_number_dec _.
Next Obligation. now intros []. Qed.

Definition key_enc (k : key)
    : unit + bool + key_number + string + addr * bool :=
  match k with
  | KNull => inl (inl (inl (inl tt)))
  | KBool b => inl (inl (inl (inr b)))
  | KNum x => inl (inl (inr x))
  | KStr s => inl (inr s)
  | KRef a throws => inr (a, throws)
  end.

Definition key_dec (c : unit + bool + key_number + string + addr * bool)
    : key :=
  match c with
  | inl (inl (inl (inl _))) => KNull
  | inl (inl (inl (inr b))) => KBool b
  | inl (inl (inr x)) => KNum x
  | inl (inr s) => KStr s
  | inr (a, throws) => KRef a throws
  end.

#[global] Program Instance key_countable : Countable key :=
  inj_countable' key_enc key_dec _.
Next Obligation. now intros []. Qed.

End JS.
Import JS.

(** ** What both servers share: sockets and outgoing frames *)

(** A [WebSocket] is an opaque handle owned by the transport. *)
Definition WebSocket := positive.

(** [ws.readyState] *)
Inductive ready_state := CONNECTING | OPEN | CLOSING | CLOSED.

#[global] Instance ready_state_eq_dec : EqDecision ready_state.
Proof. solve_decision. Defined.

(** The text handed to [send]: either
    [JSON.stringify({ type: "error", message })] or [JSON.stringify(m)]
    for a received value [m]. *)
Inductive frame :=
| ErrorEnvelope (message : string)
| Encoded (m : json).

(** One call [target.send(text)]. *)
Definition send := (WebSocket * frame)%type.

(** A [Set<WebSocket>] in insertion order, the order [for ... of] visits. *)
Definition set_add (ws : WebSocket) (s : list WebSocket) : list WebSocket :=
  if decide (ws ∈ s) then s else s ++ [ws].

Definition set_delete (ws : WebSocket) (s : list WebSocket) : list WebSocket :=
  filter (λ c, c ≠ ws) s.

(** The loop shared by broadcastToRoom and broadcastToOthers:
    [if (c !== sender && c.readyState === WebSocket.OPEN) c.send(JSON.stringify(message))]. *)
Definition fan_out (readyState : WebSocket → ready_state) (sender : WebSocket)
    (message : json) (members : list WebSocket) : list send :=
  (λ c, (c, Encoded message)) <$>
    filter (λ c, c ≠ sender ∧ readyState c = OPEN) members.

(** How a call ends: it returns, or it throws a TypeError (the property
    read on [null], or a log template that cannot convert a room id).
    Nothing in either file catches it. *)
Inductive completion := Returned | ThrewTypeError.

(** ** The room-based signaling server *)
Module RoomServer.

(** The two module-level maps: [rooms : Map<string, Set<WebSocket>>] and
    [clientToRoom : Map<WebSocket, string>]. The key type is the one the
    running code can store: whatever truthy [roomId] the message carried. *)
Record directory := Directory {
  rooms : gmap key (list WebSocket);
  clientToRoom : gmap WebSocket key
}.

(** Both maps start empty. *)
Definition initial : directory :=
  {| rooms := ∅; clientToRoom := ∅ |}.

(** [handleJoinRoom(ws, roomId)]: the two maps as the call leaves them.
    Its two log lines print [roomId] through a template; when that throws,
    it is before any write for a socket already in a room (line 67) and
    after both writes otherwise (line 82), so the maps are the same whether
    the call returns or throws. [handleJoinRoom_ends] says which it does. *)
Definition handleJoinRoom (d : directory) (ws : WebSocket) (roomId : key)
    : directory :=
  match clientToRoom d !! ws with
  | Some _ => d
  | None =>
      match rooms d !! roomId with
      | Some room =>
          {| rooms := <[roomId := set_add ws room]> (rooms d);
             clientToRoom := <[ws := roomId]> (clientToRoom d) |}
      | None =>
          {| rooms := <[roomId := set_add ws []]> (rooms d);
             clientToRoom := <[ws := roomId]> (clientToRoom d) |}
      end
  end.

(** How [handleJoinRoom(ws, roomId)] ends. The warning of line 67 prints
    [roomId] and the room id on record; the log of line 82 prints [roomId]
    and a number. *)
Definition handleJoinRoom_ends (d : directory) (ws : WebSocket) (roomId : key)
    : completion :=
  match clientToRoom d !! ws with
  | Some current =>
      if unprintable roomId || unprintable current then ThrewTypeError
      else Returned
  | None => if unprintable roomId then ThrewTypeError else Returned
  end.

(** The three ways through [broadcastToRoom]. *)
Inductive broadcast_path :=
| NotInRoom
| RoomNotFound (roomId : key)
| Deliver (roomId : key) (room : list WebSocket).

Definition broadcast_path_of (d : directory) (senderWs : WebSocket)
    : broadcast_path :=
  match clientToRoom d !! senderWs with
  | None => NotInRoom
  | Some roomId =>
      if falsy roomId then NotInRoom
      else match rooms d !! roomId with
           | None => RoomNotFound roomId
           | Some room => Deliver roomId room
           end
  end.

Definition join_first : string :=
  "You must join a room before sending messages.".

(** [broadcastToRoom(senderWs, message)]: the calls to [send] it makes, in
    order. It writes to neither map. *)
Definition broadcastToRoom (d : directory) (readyState : WebSocket → ready_state)
    (senderWs : WebSocket) (message : json) : list send :=
  match broadcast_path_of d senderWs with
  | NotInRoom => [(senderWs, ErrorEnvelope join_first)]
  | RoomNotFound _ => []
  | Deliver _ room => fan_out readyState senderWs message room
  end.

(** How [broadcastToRoom(senderWs, message)] ends: only the error line of
    the room-not-found branch prints a room id (line 104). *)
Definition broadcast_ends (d : directory) (senderWs : WebSocket) : completion :=
  match broadcast_path_of d senderWs with
  | RoomNotFound roomId =>
      if unprintable roomId then ThrewTypeError else Returned
  | _ => Returned
  end.

(** [handleDisconnect(ws)]: the two maps as the call leaves them. The log
    of line 137 prints [roomId] after [clientToRoom.delete(ws)] and
    [room.delete(ws)] and before the test of [room.size]: when it throws,
    the room stays in [rooms] with the members it has left, none
    included. *)
Definition handleDisconnect (d : directory) (ws : WebSocket) : directory :=
  match clientToRoom d !! ws with
  | None => d
  | Some roomId =>
      if falsy roomId then d
      else match rooms d !! roomId with
           | Some room =>
               let room' := set_delete ws room in
               if unprintable roomId
               then {| rooms := <[roomId := room']> (rooms d);
                       clientToRoom := delete ws (clientToRoom d) |}
               else if decide (length room' = 0)
               then {| rooms := delete roomId (rooms d);
                       clientToRoom := delete ws (clientToRoom d) |}
               else {| rooms := <[roomId := room']> (rooms d);
                       clientToRoom := delete ws (clientToRoom d) |}
           | None =>
               {| rooms := rooms d;
                  clientToRoom := delete ws (clientToRoom d) |}
           end
  end.

(** How [handleDisconnect(ws)] ends. *)
Definition handleDisconnect_ends (d : directory) (ws : WebSocket)
    : completion :=
  match clientToRoom d !! ws with
  | None => Returned
  | Some roomId =>
      if falsy roomId then Returned
      else match rooms d !! roomId with
           | Some _ => if unprintable roomId then ThrewTypeError else Returned
           | None => Returned
           end
  end.

(** What one callback did: the directory it leaves, the sends it made and
    how it ended. *)
Record reaction := Reaction {
  after : directory;
  sent : list send;
  ended : completion
}.

(** [message.type === "joinRoom" && message.roomId]: the room id to join,
    when the test passes. *)
Definition join_request (message : json) : option json :=
  if strict_eq_str (prop message "type") "joinRoom"
  then match prop message "roomId" with
       | Some roomId => if truthy roomId then Some roomId else None
       | None => None
       end
  else None.

(** The [message] callback of [ws]. [data] is the outcome of
    [JSON.parse(data.toString())], [None] when it threw. [message] is
    declared a [SignalMessage], a type that is gone when the code runs: it
    holds whatever value the parse returned. *)
Definition on_message (d : directory) (readyState : WebSocket → ready_state)
    (ws : WebSocket) (data : option json) : reaction :=
  match data with
  | None => Reaction d [(ws, ErrorEnvelope "Invalid JSON format.")] Returned
  | Some JNull => Reaction d [] ThrewTypeError
  | Some message =>
      match join_request message with
      | Some roomId =>
          Reaction (handleJoinRoom d ws (to_key roomId)) []
            (handleJoinRoom_ends d ws (to_key roomId))
      | None =>
          Reaction d (broadcastToRoom d readyState ws message)
            (broadcast_ends d ws)
      end
  end.

(** The [close] and [error] callbacks of [ws]. *)
Definition on_close (d : directory) (ws : WebSocket) : reaction :=
  Reaction (handleDisconnect d ws) [] (handleDisconnect_ends d ws).

Definition on_error (d : directory) (ws : WebSocket) : reaction :=
  Reaction (handleDisconnect d ws) [] (handleDisconnect_ends d ws).

(** The events the transport delivers for a socket. *)
Inductive event :=
| Message (ws : WebSocket) (data : option json)
| Close (ws : WebSocket)
| Error (ws : WebSocket).

Definition handle (d : directory) (readyState : WebSocket → ready_state)
    (e : event) : reaction :=
  match e with
  | Message ws data => on_message d readyState ws data
  | Close ws => on_close d ws
  | Error ws => on_error d ws
  end.

(** The socket whose callback an event runs. *)
Definition socket_of (e : event) : WebSocket :=
  match e with
  | Message ws _ | Close ws | Error ws => ws
  end.

(** Directories the maps can be in: any events, in any order, with any
    ready states at each, a callback that threw included (as when the
    process is kept running past an uncaught exception). *)
Inductive reachable : directory → Prop :=
| reachable_initial : reachable initial
| reachable_event d readyState e :
    reachable d → reachable (after (handle d readyState e)).

(** Directories of the server as the file runs it. No callback catches what
    it throws and the file installs no handler for uncaught exceptions, so
    the first TypeError ends the process: an event is handled only when
    every callback before it has returned. *)
Inductive serving : directory → Prop :=
| serving_initial : serving initial
| serving_event d readyState e :
    serving d → ended (handle d readyState e) = Returned →
    serving (after (handle d readyState e)).

(** Directories obtained by calling the two mutators directly, with any
    arguments. *)
Inductive reachable_by_calls : directory → Prop :=
| calls_initial : reachable_by_calls initial
| calls_join d ws roomId :
    reachable_by_calls d → reachable_by_calls (handleJoinRoom d ws roomId)
| calls_disconnect d ws :
    reachable_by_calls d → reachable_by_calls (handleDisconnect d ws).

(** [c] is in the member set of room [r]. *)
Definition member (d : directory) (c : WebSocket) (r : key) : Prop :=
  ∃ room, rooms d !! r = Some room ∧ c ∈ room.

(** I1: forward and reverse map agree. *)
Definition consistent (d : directory) : Prop :=
  ∀ c r, member d c r ↔ clientToRoom d !! c = Some r.

(** I3: nobody is in two rooms. *)
Definition one_room_each (d : directory) : Prop :=
  ∀ c r1 r2, member d c r1 → member d c r2 → r1 = r2.

(** I2: no room is empty. *)
Definition no_empty_room (d : directory) : Prop :=
  ∀ r room, rooms d !! r = Some room → room ≠ [].

(** A [Set] holds each socket once. *)
Definition sets_nodup (d : directory) : Prop :=
  ∀ r room, rooms d !! r = Some room → NoDup room.

(** Every recorded room id is truthy. *)
Definition ids_truthy (d : directory) : Prop :=
  ∀ c r, clientToRoom d !! c = Some r → falsy r = false.

(** Every recorded room id can be printed. *)
Definition ids_printable (d : directory) : Prop :=
  ∀ c r, clientToRoom d !! c = Some r → unprintable r = false.

End RoomServer.

(** ** The single-group relay of src/index.ts *)
Module PeerServer.

Record reaction := Reaction {
  after : list WebSocket;
  sent : list send;
  ended : completion
}.

(** [broadcastToOthers(sender, message)] over the module-level [peers]. *)
Definition broadcastToOthers (peers : list WebSocket)
    (readyState : WebSocket → ready_state) (sender : WebSocket)
    (message : json) : list send :=
  fan_out readyState sender message peers.

(** The [case] labels of the [switch]. *)
Definition relayed (type : string) : bool :=
  String.eqb type "createOffer" || String.eqb type "createAnswer"
  || String.eqb type "iceCandidate".

(** The [connection] callback. *)
Definition on_connection (peers : list WebSocket) (ws : WebSocket) : reaction :=
  Reaction (set_add ws peers) [] Returned.

(** The [message] callback of [ws]; [data] as in [RoomServer.on_message]. *)
Definition on_message (peers : list WebSocket)
    (readyState : WebSocket → ready_state) (ws : WebSocket)
    (data : option json) : reaction :=
  match data with
  | None => Reaction peers [(ws, ErrorEnvelope "Invalid JSON format")] Returned
  | Some JNull => Reaction peers [] ThrewTypeError
  | Some message =>
      (* the last branch is [typeof message.type !== "string"] *)
      match prop message "type" with
      | Some (JStr type) =>
          if relayed type
          then Reaction peers (broadcastToOthers peers readyState ws message)
                 Returned
          else Reaction peers
                 [(ws, ErrorEnvelope ("Unknown message type: " ++ type))]
                 Returned
      | _ =>
          Reaction peers
            [(ws, ErrorEnvelope "Missing or invalid 'type' field")] Returned
      end
  end.

(** The [close] and [error] callbacks of [ws]. *)
Definition on_close (peers : list WebSocket) (ws : WebSocket) : reaction :=
  Reaction (set_delete ws peers) [] Returned.

Definition on_error (peers : list WebSocket) (ws : WebSocket) : reaction :=
  Reaction peers [] Returned.

(** The events the transport delivers: a new socket, and the three events
    of a socket. *)
Inductive event :=
| Connection (ws : WebSocket)
| Message (ws : WebSocket) (data : option json)
| Close (ws : WebSocket)
| Error (ws : WebSocket).

Definition handle (peers : list WebSocket)
    (readyState : WebSocket → ready_state) (e : event) : reaction :=
  match e with
  | Connection ws => on_connection peers ws
  | Message ws data => on_message peers readyState ws data
  | Close ws => on_close peers ws
  | Error ws => on_error peers ws
  end.

(** [peers] starts as [new Set()]; then any events in any order. *)
Inductive reachable : list WebSocket → Prop :=
| reachable_initial : reachable []
| reachable_event peers readyState e :
    reachable peers → reachable (after (handle peers readyState e)).

End PeerServer.

(** What [handleDisconnect] leaves of the entry of a room once it has run
    [room.delete(ws)] and, unless the log line threw, the test
    [room.size === 0]: nothing when the test found the room empty, the
    remaining members otherwise. *)
Definition room_without (ws : WebSocket) (threw : bool)
    (entry : option (list WebSocket)) : option (list WebSocket) :=
  match entry with
  | Some room =>
      if threw then Some (set_delete ws room)
      else if decide (length (set_delete ws room) = 0) then None
      else Some (set_delete ws room)
  | None => None
  end.

(** ** Two clients in one room

    The directory of the specification's scenario A: [alice] and [bob] have
    both sent [{type: "joinRoom", roomId: "r1"}] and both sockets are open. *)
Definition alice : WebSocket := 1%positive.
Definition bob : WebSocket := 2%positive.

Definition all_open : WebSocket → ready_state := λ _, OPEN.

Definition join_r1 : json :=
  JObj 1%positive [("type", JStr "joinRoom"); ("roomId", JStr "r1")].

Definition alice_in_r1 : RoomServer.directory :=
  RoomServer.after
    (RoomServer.handle RoomServer.initial all_open
       (RoomServer.Message alice (Some join_r1))).

Definition both_in_r1 : RoomServer.directory :=
  RoomServer.after
    (RoomServer.handle alice_in_r1 all_open
       (RoomServer.Message bob (Some join_r1))).

(** Payloads the scenarios send: an offer, an object without [type], one
    with an unknown [type], a join without [roomId] and a join to [""]. *)
Definition offer : json :=
  JObj 2%positive [("type", JStr "createOffer"); ("sdp", JStr "abc")].

Definition no_type : json := JObj 3%positive [("sdp", JStr "abc")].

Definition ping : json := JObj 4%positive [("type", JStr "ping")].

Definition join_nowhere : json := JObj 5%positive [("type", JStr "joinRoom")].

Definition join_empty : json :=
  JObj 6%positive [("type", JStr "joinRoom"); ("roomId", JStr "")].

(** A join whose room id is the object [{"toString": 1}], which no template
    can print. *)
Definition no_string : json :=
  JObj 8%positive [("toString", JNum (S754_finite false 1 0))].

Definition join_no_string : json :=
  JObj 7%positive [("type", JStr "joinRoom"); ("roomId", no_string)].

(** * Properties *)

(** ** Sets in insertion order *)
Section insertion_ordered_sets.
Implicit Types (c ws : WebSocket) (s : list WebSocket).

Lemma elem_of_set_add c ws s : c ∈ set_add ws s ↔ c = ws ∨ c ∈ s.
Proof.
  unfold set_add. case_decide as Hin.
  - split; [auto | intros [-> | ?]; done].
  - rewrite elem_of_app, list_elem_of_singleton. tauto.
Qed.

Lemma set_add_not_nil ws s : set_add ws s ≠ [].
Proof. apply (elem_of_not_nil ws), elem_of_set_add. by left. Qed.

Lemma NoDup_set_add ws s : NoDup s → NoDup (set_add ws s).
Proof.
  intros Hs. unfold set_add. case_decide as Hin; [done |].
  apply NoDup_app. split_and!; [done | | apply NoDup_singleton].
  intros x Hx ->%list_elem_of_singleton. done.
Qed.

Lemma elem_of_set_delete c ws s : c ∈ set_delete ws s ↔ c ≠ ws ∧ c ∈ s.
Proof. unfold set_delete. by rewrite list_elem_of_filter. Qed.

Lemma NoDup_set_delete ws s : NoDup s → NoDup (set_delete ws s).
Proof. apply NoDup_filter. Qed.

Lemma set_delete_nil_inv c ws s : set_delete ws s = [] → c ∈ s → c = ws.
Proof.
  intros Hnil Hc. destruct (decide (c = ws)) as [|Hne]; [done |].
  exfalso. eapply (not_elem_of_nil c). rewrite <- Hnil.
  by apply elem_of_set_delete.
Qed.

End insertion_ordered_sets.

(** ** The fan-out loop *)
Section fan_out_facts.
Context (readyState : WebSocket → ready_state) (sender : WebSocket) (m : json).

Lemma elem_of_fan_out members c f :
  (c, f) ∈ fan_out readyState sender m members ↔
  f = Encoded m ∧ c ∈ members ∧ c ≠ sender ∧ readyState c = OPEN.
Proof.
  unfold fan_out. rewrite list_elem_of_fmap. split.
  - intros (x & [= -> ->] & Hx). apply list_elem_of_filter in Hx. tauto.
  - intros (-> & Hc & Hne & Hopen). exists c. split; [done |].
    by apply list_elem_of_filter.
Qed.

Lemma NoDup_fan_out members :
  NoDup members → NoDup (fan_out readyState sender m members).
Proof.
  intros Hnd. unfold fan_out. apply NoDup_fmap_2.
  - intros x y [=]. done.
  - by apply NoDup_filter.
Qed.

Lemma fan_out_spares_sender members f :
  (sender, f) ∉ fan_out readyState sender m members.
Proof. rewrite elem_of_fan_out. tauto. Qed.

End fan_out_facts.

(** ** The room directory under its two mutators *)
Import RoomServer.

Section directory_facts.
Implicit Types (d : directory) (c ws : WebSocket) (r k roomId : key)
  (room : list WebSocket).

Lemma join_assigned d ws roomId :
  is_Some (clientToRoom d !! ws) → handleJoinRoom d ws roomId = d.
Proof. intros [k Hk]. unfold handleJoinRoom. by rewrite Hk. Qed.

Lemma rooms_join d ws roomId r room :
  rooms (handleJoinRoom d ws roomId) !! r = Some room →
  rooms d !! r = Some room ∨
  (r = roomId ∧ room = set_add ws (default [] (rooms d !! roomId))).
Proof.
  unfold handleJoinRoom.
  destruct (clientToRoom d !! ws); [by left |].
  destruct (rooms d !! roomId) as [room0|] eqn:Hk; simpl;
    (destruct (decide (r = roomId)) as [-> | Hne];
     [rewrite lookup_insert_eq; intros [= <-]; right; by rewrite ?Hk
     |rewrite lookup_insert_ne by done; by left]).
Qed.

Lemma member_join d ws roomId c r :
  clientToRoom d !! ws = None →
  member (handleJoinRoom d ws roomId) c r ↔
  (c = ws ∧ r = roomId) ∨ member d c r.
Proof.
  intros Hnone. unfold handleJoinRoom, member. rewrite Hnone.
  destruct (rooms d !! roomId) as [room0|] eqn:Hk; simpl;
    destruct (decide (r = roomId)) as [-> | Hne];
    rewrite ?lookup_insert_eq, ?lookup_insert_ne by done.
  - split.
    + intros (room & [= <-] & [-> | Hc]%elem_of_set_add); [by left |].
      right. eauto.
    + intros [[-> _] | (room & Hr & Hc)];
        (eexists; split; [done |]; apply elem_of_set_add); [by left |].
      right. congruence.
  - split; [by right | intros [[_ ->] | ?]; done].
  - split.
    + intros (room & [= <-] & [-> | Hc]%elem_of_set_add); [by left |].
      by apply elem_of_nil in Hc.
    + intros [[-> _] | (room & Hr & Hc)]; [| congruence].
      eexists; split; [done |]. apply elem_of_set_add. by left.
  - split; [by right | intros [[_ ->] | ?]; done].
Qed.

Lemma lookup_join d ws roomId c :
  clientToRoom d !! ws = None →
  clientToRoom (handleJoinRoom d ws roomId) !! c =
  if decide (c = ws) then Some roomId else clientToRoom d !! c.
Proof.
  intros Hnone. unfold handleJoinRoom. rewrite Hnone.
  destruct (rooms d !! roomId); simpl; case_decide as Hc; subst;
    by rewrite ?lookup_insert_eq, ?lookup_insert_ne by done.
Qed.

Lemma disconnect_unassigned d ws :
  clientToRoom d !! ws = None → handleDisconnect d ws = d.
Proof. intros Hnone. unfold handleDisconnect. by rewrite Hnone. Qed.

Lemma disconnect_falsy d ws k :
  clientToRoom d !! ws = Some k → falsy k = true → handleDisconnect d ws = d.
Proof. intros Hk Hf. unfold handleDisconnect. by rewrite Hk, Hf. Qed.

Lemma room_without_Some ws (threw : bool) entry room :
  room_without ws threw entry = Some room →
  ∃ room0, entry = Some room0 ∧ room = set_delete ws room0 ∧
           (threw = false → room ≠ []).
Proof.
  unfold room_without. destruct entry as [room0|]; [| done].
  destruct threw.
  - intros [= <-]. exists room0. by split_and!.
  - case_decide as Hlen; [done |]. intros [= <-]. exists room0.
    split_and!; [done | done |]. intros _ Hnil. by rewrite Hnil in Hlen.
Qed.

Lemma room_without_elem ws (threw : bool) room0 c :
  c ∈ set_delete ws room0 →
  ∃ room, room_without ws threw (Some room0) = Some room ∧ c ∈ room.
Proof.
  intros Hc. unfold room_without. destruct threw; [eauto |].
  case_decide as Hlen; [| eauto].
  apply nil_length_inv in Hlen. rewrite Hlen in Hc. by apply elem_of_nil in Hc.
Qed.

Lemma rooms_lookup_disconnect d ws k r :
  clientToRoom d !! ws = Some k → falsy k = false →
  rooms (handleDisconnect d ws) !! r =
  if decide (r = k) then room_without ws (unprintable k) (rooms d !! k)
  else rooms d !! r.
Proof.
  intros Hk Hf. unfold handleDisconnect, room_without. rewrite Hk, Hf.
  destruct (rooms d !! k) as [room|] eqn:Hroom; simpl.
  - destruct (unprintable k); [| case_decide as Hlen]; simpl;
      case_decide as Hr; subst;
      by rewrite ?lookup_delete_eq, ?lookup_delete_ne,
                 ?lookup_insert_eq, ?lookup_insert_ne by done.
  - case_decide; by subst.
Qed.

Lemma rooms_disconnect d ws r room :
  rooms (handleDisconnect d ws) !! r = Some room →
  rooms d !! r = Some room ∨
  (∃ room0, clientToRoom d !! ws = Some r ∧ rooms d !! r = Some room0 ∧
            room = set_delete ws room0 ∧
            (unprintable r = false → room ≠ [])).
Proof.
  destruct (clientToRoom d !! ws) as [k|] eqn:Hk.
  2: { rewrite disconnect_unassigned by done. by left. }
  destruct (falsy k) eqn:Hf.
  { rewrite (disconnect_falsy d ws k) by done. by left. }
  rewrite (rooms_lookup_disconnect d ws k) by done.
  case_decide as Hr; [subst r | by left].
  intros (room0 & Hroom0 & -> & Hne)%room_without_Some. right. by exists room0.
Qed.

Lemma member_disconnect d ws k c r :
  clientToRoom d !! ws = Some k → falsy k = false →
  member (handleDisconnect d ws) c r ↔ member d c r ∧ ¬ (c = ws ∧ r = k).
Proof.
  intros Hk Hf. unfold member.
  rewrite (rooms_lookup_disconnect d ws k) by done.
  case_decide as Hr; [subst r |].
  - split.
    + intros (room & (room0 & Hroom0 & -> & _)%room_without_Some
                   & [Hne Hc]%elem_of_set_delete).
      split; [eauto | tauto].
    + intros [(room0 & Hroom0 & Hc) Hnot]. rewrite Hroom0.
      apply room_without_elem, elem_of_set_delete. split; [| done].
      intros ->. by apply Hnot.
  - split; [| tauto]. intros H. split; [done |]. by intros [_ ->].
Qed.

Lemma lookup_disconnect d ws k c :
  clientToRoom d !! ws = Some k → falsy k = false →
  clientToRoom (handleDisconnect d ws) !! c =
  if decide (c = ws) then None else clientToRoom d !! c.
Proof.
  intros Hk Hf. unfold handleDisconnect. rewrite Hk, Hf.
  destruct (rooms d !! k); simpl;
    [destruct (unprintable k); [| case_decide]; simpl |];
    (case_decide as Hc; subst;
     by rewrite ?lookup_delete_eq, ?lookup_delete_ne by done).
Qed.

End directory_facts.

(** ** Each mutator keeps each invariant *)
Section preservation.
Implicit Types (d : directory) (c ws : WebSocket) (r k roomId : key).

Lemma consistent_one_room d : consistent d → one_room_each d.
Proof.
  intros Hd c r1 r2 H1%Hd H2%Hd. congruence.
Qed.

Lemma initial_consistent : consistent initial.
Proof.
  intros c r. unfold member, initial. simpl. split.
  - intros (room & Hr & _). by rewrite lookup_empty in Hr.
  - intros Hc. by rewrite lookup_empty in Hc.
Qed.

Lemma join_consistent d ws roomId :
  consistent d → consistent (handleJoinRoom d ws roomId).
Proof.
  intros Hd. destruct (clientToRoom d !! ws) as [k|] eqn:Hws.
  { by rewrite join_assigned. }
  intros c r. rewrite member_join, lookup_join by done.
  rewrite (Hd c r). case_decide as Hc; subst.
  - rewrite Hws. split; [intros [[_ ->] | ?]; done | intros [= ->]; by left].
  - split; [intros [[? _] | ?]; done | by right].
Qed.

Lemma disconnect_consistent d ws :
  consistent d → consistent (handleDisconnect d ws).
Proof.
  intros Hd. destruct (clientToRoom d !! ws) as [k|] eqn:Hws.
  2: { by rewrite disconnect_unassigned. }
  destruct (falsy k) eqn:Hf.
  { by rewrite (disconnect_falsy d ws k). }
  intros c r. rewrite (member_disconnect d ws k), (lookup_disconnect d ws k)
    by done.
  rewrite (Hd c r). case_decide as Hc; subst.
  - split; [| done]. intros [Hr Hnot]. exfalso. apply Hnot. split; congruence.
  - split; [tauto |]. intros Hr. split; [done |]. by intros [? _].
Qed.

Lemma join_no_empty_room d ws roomId :
  no_empty_room d → no_empty_room (handleJoinRoom d ws roomId).
Proof.
  intros Hd r room [Hr | [_ ->]]%rooms_join; [by eapply Hd |].
  apply set_add_not_nil.
Qed.

Lemma disconnect_no_empty_room d ws :
  no_empty_room d → ids_printable d → no_empty_room (handleDisconnect d ws).
Proof.
  intros Hd Hp r room [Hr | (room0 & Hws & _ & _ & Hne)]%rooms_disconnect;
    [by eapply Hd |].
  by apply Hne, (Hp ws).
Qed.

Lemma join_sets_nodup d ws roomId :
  sets_nodup d → sets_nodup (handleJoinRoom d ws roomId).
Proof.
  intros Hd r room [Hr | [_ ->]]%rooms_join; [by eapply Hd |].
  apply NoDup_set_add. destruct (rooms d !! roomId) as [room0|] eqn:Hk; simpl.
  - by eapply Hd.
  - apply NoDup_nil_2.
Qed.

Lemma disconnect_sets_nodup d ws :
  sets_nodup d → sets_nodup (handleDisconnect d ws).
Proof.
  intros Hd r room [Hr | (room0 & _ & Hr & -> & _)]%rooms_disconnect;
    [by eapply Hd |].
  apply NoDup_set_delete. by eapply Hd.
Qed.

Lemma join_ids_truthy d ws roomId :
  falsy roomId = false → ids_truthy d →
  ids_truthy (handleJoinRoom d ws roomId).
Proof.
  intros Hf Hd. destruct (clientToRoom d !! ws) as [k|] eqn:Hws.
  { by rewrite join_assigned. }
  intros c r. rewrite lookup_join by done. case_decide; [congruence |].
  apply Hd.
Qed.

Lemma disconnect_ids_truthy d ws :
  ids_truthy d → ids_truthy (handleDisconnect d ws).
Proof.
  intros Hd. destruct (clientToRoom d !! ws) as [k|] eqn:Hws.
  2: { by rewrite disconnect_unassigned. }
  intros c r. rewrite (lookup_disconnect d ws k) by eauto.
  case_decide; [done | apply Hd].
Qed.

Lemma join_ids_printable d ws roomId :
  unprintable roomId = false → ids_printable d →
  ids_printable (handleJoinRoom d ws roomId).
Proof.
  intros Hf Hd. destruct (clientToRoom d !! ws) as [k|] eqn:Hws.
  { by rewrite join_assigned. }
  intros c r. rewrite lookup_join by done. case_decide; [congruence |].
  apply Hd.
Qed.

Lemma disconnect_ids_printable d ws :
  ids_printable d → ids_printable (handleDisconnect d ws).
Proof.
  intros Hd c r. destruct (decide (c = ws)) as [-> | Hne].
  - destruct (clientToRoom d !! ws) as [k|] eqn:Hws.
    + destruct (falsy k) eqn:Hf.
      * rewrite (disconnect_falsy d ws k) by done. apply Hd.
      * rewrite (lookup_disconnect d ws k) by done. by rewrite decide_True.
    + rewrite disconnect_unassigned by done. apply Hd.
  - destruct (clientToRoom d !! ws) as [k|] eqn:Hws.
    + destruct (falsy k) eqn:Hf.
      * rewrite (disconnect_falsy d ws k) by done. apply Hd.
      * rewrite (lookup_disconnect d ws k) by done. rewrite decide_False by done.
        apply Hd.
    + rewrite disconnect_unassigned by done. apply Hd.
Qed.

(** A room id that passes the router's test is truthy as a key. *)
Lemma join_request_truthy (message id : json) :
  join_request message = Some id → falsy (to_key id) = false.
Proof.
  unfold join_request. destruct (strict_eq_str _ _); [| done].
  destruct (prop message "roomId") as [v|]; [| done].
  destruct (truthy v) eqn:Hv; [| done]. intros [= <-].
  destruct v as [|b|x|s|a l|a l]; simpl in *; try done.
  - by destruct b.
  - by destruct x.
  - by destruct (String.eqb s "").
Qed.

(** The [message] callback either joins or leaves the directory alone. *)
Lemma on_message_after d readyState ws data :
  after (on_message d readyState ws data) = d ∨
  ∃ roomId, falsy roomId = false ∧
    after (on_message d readyState ws data) = handleJoinRoom d ws roomId.
Proof.
  unfold on_message. destruct data as [message|]; [| by left].
  destruct (join_request message) as [v|] eqn:Hj.
  - destruct message; try (by left); right; exists (to_key v);
      (split; [by eapply join_request_truthy | done]).
  - destruct message; by left.
Qed.

Lemma reachable_calls d : reachable d → reachable_by_calls d.
Proof.
  induction 1 as [|d readyState e _ IH]; [constructor |].
  destruct e as [ws data|ws|ws]; simpl.
  - destruct (on_message_after d readyState ws data) as [-> | (k & _ & ->)];
      [done | by constructor].
  - by constructor.
  - by constructor.
Qed.

Lemma calls_invariant d :
  reachable_by_calls d → consistent d ∧ sets_nodup d.
Proof.
  induction 1 as [|d ws k _ (I1 & I3)|d ws _ (I1 & I3)].
  - split; [apply initial_consistent |].
    intros r room Hr; simpl in Hr; by rewrite lookup_empty in Hr.
  - split; [by apply join_consistent | by apply join_sets_nodup].
  - split; [by apply disconnect_consistent | by apply disconnect_sets_nodup].
Qed.

Lemma reachable_ids_truthy d : reachable d → ids_truthy d.
Proof.
  induction 1 as [|d readyState e _ IH].
  - intros c r Hc. simpl in Hc. by rewrite lookup_empty in Hc.
  - destruct e as [ws data|ws|ws]; simpl.
    + destruct (on_message_after d readyState ws data) as [-> | (k & Hk & ->)];
        [done | by apply join_ids_truthy].
    + by apply disconnect_ids_truthy.
    + by apply disconnect_ids_truthy.
Qed.

(** Every key of [rooms] is truthy too. *)
Lemma reachable_rooms_truthy d r :
  reachable d → is_Some (rooms d !! r) → falsy r = false.
Proof.
  intros Hreach. revert r.
  induction Hreach as [|d readyState e Hreach IH]; intros r [room Hroom].
  { simpl in Hroom. by rewrite lookup_empty in Hroom. }
  assert (∀ ws, is_Some (rooms (handleDisconnect d ws) !! r) → falsy r = false)
    as Hleave.
  { intros ws [room' [Hr | (room0 & _ & Hr & _)]%rooms_disconnect];
      apply IH; eauto. }
  destruct e as [ws data|ws|ws]; simpl in Hroom; [| by eapply Hleave..].
  destruct (on_message_after d readyState ws data) as [Heq | (k & Hk & Heq)];
    rewrite Heq in Hroom; [apply IH; eauto |].
  apply rooms_join in Hroom as [Hr | [-> _]]; [apply IH; eauto | done].
Qed.

(** While the server runs, a callback that has joined has printed the room
    id: every id on record prints, so no disconnect throws and no room is
    left empty. *)
Lemma on_message_returned d readyState ws data :
  ended (on_message d readyState ws data) = Returned →
  after (on_message d readyState ws data) = d ∨
  ∃ roomId, falsy roomId = false ∧ unprintable roomId = false ∧
    after (on_message d readyState ws data) = handleJoinRoom d ws roomId.
Proof.
  unfold on_message. destruct data as [message|]; [| by left].
  destruct (join_request message) as [v|] eqn:Hj.
  2: { destruct message; by left. }
  assert (handleJoinRoom_ends d ws (to_key v) = Returned →
          handleJoinRoom d ws (to_key v) = d ∨
          ∃ roomId, falsy roomId = false ∧ unprintable roomId = false ∧
            handleJoinRoom d ws (to_key v) = handleJoinRoom d ws roomId) as Hk.
  { unfold handleJoinRoom_ends.
    destruct (clientToRoom d !! ws) as [k|] eqn:Hws.
    - intros _. left. by apply join_assigned.
    - destruct (unprintable (to_key v)) eqn:Hp; [done |]. intros _. right.
      exists (to_key v). split_and!; [by eapply join_request_truthy | done..]. }
  destruct message; simpl; try (by left); exact Hk.
Qed.

Lemma serving_reachable d : serving d → reachable d.
Proof. induction 1; by constructor. Qed.

Lemma serving_invariant d : serving d → no_empty_room d ∧ ids_printable d.
Proof.
  induction 1 as [|d readyState e _ [I2 Hp] Hret].
  { split; intros ? ? Hl; simpl in Hl; by rewrite lookup_empty in Hl. }
  destruct e as [ws data|ws|ws]; simpl in *.
  - destruct (on_message_returned d readyState ws data Hret)
      as [-> | (k & _ & Hk & ->)]; [done |].
    split; [by apply join_no_empty_room | by apply join_ids_printable].
  - split; [by apply disconnect_no_empty_room
           | by apply disconnect_ids_printable].
  - split; [by apply disconnect_no_empty_room
           | by apply disconnect_ids_printable].
Qed.

(** With a printable id on record the disconnect returns. *)
Lemma disconnect_returns d ws :
  ids_printable d → handleDisconnect_ends d ws = Returned.
Proof.
  intros Hp. unfold handleDisconnect_ends.
  destruct (clientToRoom d !! ws) as [k|] eqn:Hk; [| done].
  rewrite (Hp ws k Hk). by repeat case_match.
Qed.

End preservation.

(** ** The router's two exits *)
Section router_facts.
Implicit Types (d : directory) (ws senderWs : WebSocket) (message : json).
Context (readyState : WebSocket → ready_state).

(** The property read on [null] throws before anything is done. *)
Lemma on_message_null d ws :
  on_message d readyState ws (Some JNull) = Reaction d [] ThrewTypeError.
Proof. reflexivity. Qed.

Lemma peer_on_message_null (peers : list WebSocket) ws :
  PeerServer.on_message peers readyState ws (Some JNull) =
  PeerServer.Reaction peers [] ThrewTypeError.
Proof. reflexivity. Qed.

Lemma unprintable_to_key (v : json) :
  unprintable (to_key v) = to_string_throws v.
Proof. by destruct v. Qed.

Lemma on_message_join d ws message id :
  join_request message = Some id →
  on_message d readyState ws (Some message) =
  Reaction (handleJoinRoom d ws (to_key id)) []
    (handleJoinRoom_ends d ws (to_key id)).
Proof. intros Hj. destruct message; simpl; by rewrite ?Hj. Qed.

Lemma on_message_no_join d ws message :
  message ≠ JNull → join_request message = None →
  on_message d readyState ws (Some message) =
  Reaction d (broadcastToRoom d readyState ws message) (broadcast_ends d ws).
Proof. intros Hnull Hj. destruct message; simpl; by rewrite ?Hj. Qed.

(** The broadcast throws on the room-not-found branch only: never for a
    sender without a room, never when the two maps agree. *)
Lemma broadcast_ends_unassigned d senderWs :
  clientToRoom d !! senderWs = None → broadcast_ends d senderWs = Returned.
Proof.
  intros Hnone. unfold broadcast_ends, broadcast_path_of. by rewrite Hnone.
Qed.

Lemma broadcast_ends_consistent d senderWs :
  consistent d → broadcast_ends d senderWs = Returned.
Proof.
  intros Hd. unfold broadcast_ends, broadcast_path_of.
  destruct (clientToRoom d !! senderWs) as [k|] eqn:Hk; [| done].
  destruct (falsy k); [done |].
  destruct (proj2 (Hd senderWs k) Hk) as (room & -> & _). done.
Qed.

Lemma broadcast_ends_reachable d senderWs :
  reachable d → broadcast_ends d senderWs = Returned.
Proof.
  intros Hreach. by apply broadcast_ends_consistent, calls_invariant,
    reachable_calls.
Qed.

Lemma broadcast_unassigned d senderWs message :
  clientToRoom d !! senderWs = None →
  broadcastToRoom d readyState senderWs message =
  [(senderWs, ErrorEnvelope join_first)].
Proof.
  intros Hnone. unfold broadcastToRoom, broadcast_path_of. by rewrite Hnone.
Qed.

(** With forward and reverse map in agreement and a truthy id, the sender's
    room exists and holds the sender. *)
Lemma path_assigned d senderWs roomId :
  consistent d → clientToRoom d !! senderWs = Some roomId →
  falsy roomId = false →
  ∃ room, rooms d !! roomId = Some room ∧ senderWs ∈ room ∧
          broadcast_path_of d senderWs = Deliver roomId room.
Proof.
  intros Hd Hr Hf. destruct (proj2 (Hd senderWs roomId) Hr) as (room & Hroom & Hin).
  exists room. split_and!; [done | done |].
  unfold broadcast_path_of. by rewrite Hr, Hf, Hroom.
Qed.

Lemma broadcast_assigned d senderWs roomId message :
  reachable d → clientToRoom d !! senderWs = Some roomId →
  ∃ room, rooms d !! roomId = Some room ∧ senderWs ∈ room ∧ NoDup room ∧
          broadcastToRoom d readyState senderWs message =
          fan_out readyState senderWs message room.
Proof.
  intros Hreach Hr.
  destruct (calls_invariant d (reachable_calls d Hreach)) as (I1 & I3).
  destruct (path_assigned d senderWs roomId I1 Hr) as (room & Hroom & Hin & Hp).
  { by eapply reachable_ids_truthy. }
  exists room. split_and!; [done | done | by eapply I3 |].
  unfold broadcastToRoom. by rewrite Hp.
Qed.

End router_facts.

(** ** The scenario directory *)

Lemma both_in_r1_reachable : reachable both_in_r1.
Proof. unfold both_in_r1, alice_in_r1. do 2 apply reachable_event. constructor. Qed.

Lemma both_in_r1_rooms : rooms both_in_r1 !! KStr "r1" = Some [alice; bob].
Proof. vm_compute. reflexivity. Qed.

Lemma both_in_r1_alice : clientToRoom both_in_r1 !! alice = Some (KStr "r1").
Proof. vm_compute. reflexivity. Qed.

(** ** The scenarios of the specification, run on the model *)

(** A: Alice's offer reaches Bob and nobody else. *)
Example scenario_offer :
  on_message both_in_r1 all_open alice (Some offer) =
  Reaction both_in_r1 [(bob, Encoded offer)] Returned.
Proof. vm_compute. reflexivity. Qed.

(** C: Alice leaves and Bob stays; Bob leaves and the room is gone. *)
Example scenario_leave :
  rooms (handleDisconnect both_in_r1 alice) !! KStr "r1" = Some [bob] ∧
  handleDisconnect (handleDisconnect both_in_r1 alice) bob = initial.
Proof. split; vm_compute; reflexivity. Qed.

(** D: bytes that do not parse are answered and the client can still join. *)
Example scenario_unparsable :
  on_message initial all_open alice None =
    Reaction initial [(alice, ErrorEnvelope "Invalid JSON format.")] Returned ∧
  after (on_message (after (on_message initial all_open alice None))
           all_open alice (Some join_r1)) = alice_in_r1.
Proof. split; vm_compute; reflexivity. Qed.

(** A room id that cannot be printed: the join throws at its log line with
    both maps written; were the process kept running, the close of that
    socket would throw at its own log line and leave the emptied room in
    [rooms], and a second join of a socket in a room would throw with
    nothing written. *)
Example scenario_no_string :
  to_key no_string = KRef 8%positive true ∧
  on_message initial all_open alice (Some join_no_string) =
    Reaction
      {| rooms := {[ KRef 8%positive true := [alice] ]};
         clientToRoom := {[ alice := KRef 8%positive true ]} |}
      [] ThrewTypeError ∧
  on_close (after (on_message initial all_open alice (Some join_no_string)))
    alice =
    Reaction {| rooms := {[ KRef 8%positive true := [] ]}; clientToRoom := ∅ |}
      [] ThrewTypeError ∧
  on_message both_in_r1 all_open alice (Some join_no_string) =
    Reaction both_in_r1 [] ThrewTypeError.
Proof. split_and!; vm_compute; reflexivity. Qed.

(** A closed socket in the room is passed over. *)
Example scenario_closed_peer :
  broadcastToRoom both_in_r1 (λ c, if decide (c = bob) then CLOSED else OPEN)
    alice offer = [].
Proof. vm_compute. reflexivity. Qed.

(** ** Invariants of the room directory *)

(** C1 (membership uniqueness). In every directory the server can reach,
    through its socket callbacks or through direct calls of handleJoinRoom
    and handleDisconnect with any arguments, a connection is in the member
    set of a room exactly when clientToRoom maps it to that room id, so it is
    a member of at most one room; and handleJoinRoom, handleDisconnect and
    every callback (a broadcast included) lead to a directory where this
    holds again. *)
Theorem membership_unique (d : directory) :
  reachable d ∨ reachable_by_calls d →
  consistent d ∧ one_room_each d ∧
  ∀ ws roomId readyState e,
    (consistent (handleJoinRoom d ws roomId)
     ∧ one_room_each (handleJoinRoom d ws roomId)) ∧
    (consistent (handleDisconnect d ws)
     ∧ one_room_each (handleDisconnect d ws)) ∧
    (consistent (after (handle d readyState e))
     ∧ one_room_each (after (handle d readyState e))).
Proof.
  intros Hd.
  assert (reachable_by_calls d) as Hcalls.
  { destruct Hd as [Hd | Hd]; [by apply reachable_calls | done]. }
  assert (∀ d', reachable_by_calls d' → consistent d' ∧ one_room_each d')
    as Hboth.
  { intros d' (I1 & _)%calls_invariant.
    split; [done | by apply consistent_one_room]. }
  split_and!; [by apply Hboth | by apply Hboth |].
  intros ws roomId readyState e. split_and!.
  1-2: by apply Hboth, calls_join.
  1-2: by apply Hboth, calls_disconnect.
  all: destruct e as [ws' data|ws'|ws']; simpl.
  all: try (by apply Hboth, calls_disconnect).
  all: destruct (on_message_after d readyState ws' data) as [-> | (k & _ & ->)].
  all: by (apply Hboth; try apply calls_join).
Qed.

Lemma membership_unique_witness :
  (reachable both_in_r1 ∨ reachable_by_calls both_in_r1) ∧
  consistent both_in_r1 ∧ one_room_each both_in_r1.
Proof.
  assert (reachable both_in_r1 ∨ reachable_by_calls both_in_r1) as H.
  { left. exact both_in_r1_reachable. }
  split; [exact H |].
  destruct (membership_unique both_in_r1 H) as (I1 & I3 & _).
  split; [exact I1 | exact I3].
Defined.

(** C2 (room cleanup). No directory of the running server holds a room
    with an empty member set; and when the connection that closes or fails
    is the last member of its room, the close and the error callback return
    and the directory they leave has no entry for that room. *)
Theorem room_cleanup (d : directory) :
  serving d →
  no_empty_room d ∧
  ∀ ws r room readyState,
    rooms d !! r = Some room → ws ∈ room → set_delete ws room = [] →
    rooms (after (handle d readyState (Close ws))) !! r = None ∧
    rooms (after (handle d readyState (Error ws))) !! r = None ∧
    clientToRoom (handleDisconnect d ws) !! ws = None ∧
    no_empty_room (handleDisconnect d ws) ∧
    ended (handle d readyState (Close ws)) = Returned ∧
    ended (handle d readyState (Error ws)) = Returned.
Proof.
  intros Hserve. pose proof (serving_reachable d Hserve) as Hreach.
  destruct (serving_invariant d Hserve) as [I2 Hp].
  destruct (calls_invariant d (reachable_calls d Hreach)) as (I1 & _).
  split; [done |]. intros ws r room readyState Hroom Hin Hlast.
  assert (clientToRoom d !! ws = Some r) as Hws.
  { apply I1. by exists room. }
  assert (falsy r = false) as Hf by by eapply reachable_ids_truthy.
  assert (rooms (handleDisconnect d ws) !! r = None) as Hgone.
  { rewrite (rooms_lookup_disconnect d ws r), decide_True by done.
    unfold room_without. by rewrite Hroom, (Hp ws r Hws), Hlast. }
  split_and!; simpl; [done | done | | by apply disconnect_no_empty_room
                      | by apply disconnect_returns..].
  rewrite (lookup_disconnect d ws r) by done. by case_decide.
Qed.

Lemma alice_in_r1_serving : serving alice_in_r1.
Proof.
  unfold alice_in_r1. apply serving_event; [constructor | reflexivity].
Qed.

Lemma both_in_r1_serving : serving both_in_r1.
Proof.
  unfold both_in_r1. apply serving_event; [apply alice_in_r1_serving |].
  vm_compute. reflexivity.
Qed.

Lemma room_cleanup_witness :
  serving alice_in_r1 ∧
  rooms alice_in_r1 !! KStr "r1" = Some [alice] ∧
  rooms (after (handle alice_in_r1 all_open (Close alice))) !! KStr "r1" = None.
Proof.
  split; [exact alice_in_r1_serving |]. split; [vm_compute; reflexivity |].
  destruct (room_cleanup alice_in_r1 alice_in_r1_serving) as [_ Hlast].
  refine (proj1 (Hlast alice (KStr "r1") [alice] all_open _ _ _)).
  - vm_compute. reflexivity.
  - apply list_elem_of_singleton. reflexivity.
  - vm_compute. reflexivity.
Defined.

(** ** Broadcast *)

(** Join before send, away from the payload [null]. For a connection that
    clientToRoom does not map to a room, broadcastToRoom makes exactly one
    call to send: the error envelope with the join-first text, to the
    sender. So the message callback, on any decoded message other than
    [null] that is not a join with a room id, returns with that single reply
    and the directory as it was. *)
Theorem join_before_send (d : directory) (readyState : WebSocket → ready_state)
    (ws : WebSocket) (message : json) :
  clientToRoom d !! ws = None →
  broadcastToRoom d readyState ws message =
    [(ws, ErrorEnvelope "You must join a room before sending messages.")] ∧
  (message ≠ JNull → join_request message = None →
   on_message d readyState ws (Some message) =
     Reaction d
       [(ws, ErrorEnvelope "You must join a room before sending messages.")]
       Returned).
Proof.
  intros Hnone.
  pose proof (broadcast_unassigned readyState d ws message Hnone) as Hb.
  split; [exact Hb |]. intros Hnull Hj.
  rewrite on_message_no_join by done.
  by rewrite Hb, broadcast_ends_unassigned.
Qed.

Lemma join_before_send_witness :
  clientToRoom initial !! alice = None ∧
  on_message initial all_open alice (Some offer) =
    Reaction initial
      [(alice, ErrorEnvelope "You must join a room before sending messages.")]
      Returned.
Proof.
  assert (clientToRoom initial !! alice = None) as H by reflexivity.
  split; [exact H |].
  refine (proj2 (join_before_send initial all_open alice offer H) _ _).
  - discriminate.
  - reflexivity.
Defined.

(** C3 (join before send), at the payload [null]. [JSON.parse] accepts
    the four bytes [null]; the message is then no join, yet a connection
    without a room that sends it is sent nothing: reading [message.type]
    throws before [broadcastToRoom] is reached, with the directory as it
    was. *)
Theorem join_before_send_null :
  clientToRoom initial !! alice = None ∧
  join_request JNull = None ∧
  on_message initial all_open alice (Some JNull) =
    Reaction initial [] ThrewTypeError ∧
  ∀ d readyState ws,
    on_message d readyState ws (Some JNull) = Reaction d [] ThrewTypeError.
Proof. split_and!; reflexivity. Qed.

(** C4 (broadcast exclusion and fan-out). In a directory the server reaches,
    for a sender that clientToRoom maps to a room, that room exists and
    holds the sender, and broadcastToRoom sends the re-encoded message once
    to each member that is not the sender and whose readyState is OPEN, and
    makes no other call to send: nothing goes to the sender, and a member
    that is not open is passed over while the others are still served. *)
Theorem broadcast_fan_out (d : directory) (readyState : WebSocket → ready_state)
    (senderWs : WebSocket) (roomId : key) (message : json) :
  reachable d → clientToRoom d !! senderWs = Some roomId →
  ∃ room,
    rooms d !! roomId = Some room ∧ senderWs ∈ room ∧
    broadcastToRoom d readyState senderWs message =
      (λ c, (c, Encoded message)) <$>
        filter (λ c, c ≠ senderWs ∧ readyState c = OPEN) room ∧
    NoDup (broadcastToRoom d readyState senderWs message) ∧
    (∀ c f, (c, f) ∈ broadcastToRoom d readyState senderWs message ↔
            f = Encoded message ∧ c ∈ room ∧ c ≠ senderWs
            ∧ readyState c = OPEN) ∧
    (∀ f, (senderWs, f) ∉ broadcastToRoom d readyState senderWs message) ∧
    (message ≠ JNull → join_request message = None →
     on_message d readyState senderWs (Some message) =
       Reaction d (broadcastToRoom d readyState senderWs message) Returned).
Proof.
  intros Hreach Hr.
  destruct (broadcast_assigned readyState d senderWs roomId message Hreach Hr)
    as (room & Hroom & Hin & Hnd & ->).
  exists room. split_and!; [done | done | done | | | |].
  - by apply NoDup_fan_out.
  - intros c f. apply elem_of_fan_out.
  - intros f. apply fan_out_spares_sender.
  - intros Hnull Hj. rewrite on_message_no_join by done.
    rewrite broadcast_ends_reachable by done.
    unfold broadcastToRoom.
    destruct (path_assigned d senderWs roomId) as (room' & Hroom' & _ & ->);
      [by apply calls_invariant, reachable_calls | done
      | by eapply reachable_ids_truthy |].
    congruence.
Qed.

Lemma broadcast_fan_out_witness :
  reachable both_in_r1 ∧
  clientToRoom both_in_r1 !! alice = Some (KStr "r1") ∧
  ∃ room,
    rooms both_in_r1 !! KStr "r1" = Some room ∧
    broadcastToRoom both_in_r1 all_open alice offer =
      (λ c, (c, Encoded offer)) <$>
        filter (λ c, c ≠ alice ∧ all_open c = OPEN) room.
Proof.
  split; [exact both_in_r1_reachable |].
  split; [exact both_in_r1_alice |].
  destruct (broadcast_fan_out both_in_r1 all_open alice (KStr "r1") offer
              both_in_r1_reachable both_in_r1_alice)
    as (room & Hroom & _ & Hsent & _).
  exists room. split; [exact Hroom | exact Hsent].
Defined.

(** ** Joining *)



(** C9 (room id ""). A message with type "joinRoom" and roomId "" fails the
    router's test and goes to broadcastToRoom: the directory stays as it
    was, a sender without a room gets the join-first error envelope, and a
    sender with a room has the envelope itself forwarded to the other open
    members of its room. No directory the server reaches has a room with
    id "" or a connection mapped to "". The callback ends as
    broadcastToRoom does, which is by returning for a sender without a room
    and in every reachable directory. *)
Theorem empty_room_id_not_a_join :
  (∀ d readyState ws message,
     prop message "type" = Some (JStr "joinRoom") →
     prop message "roomId" = Some (JStr "") →
     join_request message = None ∧
     on_message d readyState ws (Some message) =
       Reaction d (broadcastToRoom d readyState ws message)
         (broadcast_ends d ws) ∧
     (clientToRoom d !! ws = None →
      sent (on_message d readyState ws (Some message)) =
        [(ws, ErrorEnvelope "You must join a room before sending messages.")]) ∧
     (reachable d → ∀ r, clientToRoom d !! ws = Some r →
      ∃ room, rooms d !! r = Some room ∧
        sent (on_message d readyState ws (Some message)) =
          (λ c, (c, Encoded message)) <$>
            filter (λ c, c ≠ ws ∧ readyState c = OPEN) room) ∧
     (clientToRoom d !! ws = None ∨ reachable d →
      ended (on_message d readyState ws (Some message)) = Returned)) ∧
  (∀ d, reachable d →
     rooms d !! KStr "" = None ∧
     ∀ c, clientToRoom d !! c = Some (KStr "") → False).
Proof.
  split.
  - intros d readyState ws message Htype Hid.
    assert (join_request message = None) as Hj.
    { unfold join_request. by rewrite Htype, Hid. }
    assert (message ≠ JNull) as Hnull by (by intros ->).
    rewrite on_message_no_join by done. simpl.
    split_and!; [done | done | | |].
    + intros Hnone. by apply broadcast_unassigned.
    + intros Hreach r Hr.
      destruct (broadcast_assigned readyState d ws r message Hreach Hr)
        as (room & Hroom & _ & _ & Hb).
      by exists room.
    + intros [Hnone | Hreach];
        [by apply broadcast_ends_unassigned | by apply broadcast_ends_reachable].
  - intros d Hreach. split.
    + destruct (rooms d !! KStr "") as [room|] eqn:Hroom; [| done].
      by assert (falsy (KStr "") = false)
        by (apply (reachable_rooms_truthy d); [done | by rewrite Hroom]).
    + intros c Hc. by apply (reachable_ids_truthy d Hreach) in Hc.
Qed.

Lemma empty_room_id_not_a_join_witness :
  prop join_empty "type" = Some (JStr "joinRoom") ∧
  prop join_empty "roomId" = Some (JStr "") ∧
  on_message both_in_r1 all_open alice (Some join_empty) =
    Reaction both_in_r1 [(bob, Encoded join_empty)] Returned ∧
  on_message initial all_open alice (Some join_empty) =
    Reaction initial
      [(alice, ErrorEnvelope "You must join a room before sending messages.")]
      Returned ∧
  rooms both_in_r1 !! KStr "" = None.
Proof.
  assert (prop join_empty "type" = Some (JStr "joinRoom")) as Ht by reflexivity.
  assert (prop join_empty "roomId" = Some (JStr "")) as Hi by reflexivity.
  destruct empty_room_id_not_a_join as [Hrouter Hnever].
  split; [exact Ht |]. split; [exact Hi |].
  destruct (Hrouter both_in_r1 all_open alice join_empty Ht Hi)
    as (_ & Hto & _).
  destruct (Hrouter initial all_open alice join_empty Ht Hi)
    as (_ & Hto0 & _).
  split; [rewrite Hto; vm_compute; reflexivity |].
  split; [rewrite Hto0; vm_compute; reflexivity |].
  exact (proj1 (Hnever both_in_r1 both_in_r1_reachable)).
Defined.

(** C10 (the room-not-found branch). In a directory obtained by calls of
    handleJoinRoom and handleDisconnect, with any arguments and in any
    order, broadcastToRoom never finds a sender whose room id has no entry in
    rooms: either the sender counts as not in a room, or its room exists and
    holds it. The same is true of every directory the callbacks reach. *)
Theorem room_not_found_unreachable (d : directory) (senderWs : WebSocket) :
  reachable_by_calls d ∨ reachable d →
  (∀ roomId, broadcast_path_of d senderWs ≠ RoomNotFound roomId) ∧
  (broadcast_path_of d senderWs = NotInRoom ∨
   ∃ roomId room,
     broadcast_path_of d senderWs = Deliver roomId room ∧
     clientToRoom d !! senderWs = Some roomId ∧
     rooms d !! roomId = Some room ∧ senderWs ∈ room).
Proof.
  intros Hd.
  assert (consistent d) as I1.
  { destruct Hd as [Hd | Hd%reachable_calls]; by apply calls_invariant. }
  assert (broadcast_path_of d senderWs = NotInRoom ∨
          ∃ roomId room,
            broadcast_path_of d senderWs = Deliver roomId room ∧
            clientToRoom d !! senderWs = Some roomId ∧
            rooms d !! roomId = Some room ∧ senderWs ∈ room) as Hpath.
  { destruct (clientToRoom d !! senderWs) as [r|] eqn:Hr.
    - destruct (falsy r) eqn:Hf.
      + left. unfold broadcast_path_of. by rewrite Hr, Hf.
      + right. destruct (path_assigned d senderWs r I1 Hr Hf)
          as (room & Hroom & Hin & Hp).
        by exists r, room.
    - left. unfold broadcast_path_of. by rewrite Hr. }
  split; [| done].
  intros roomId Hp. destruct Hpath as [Hq | (r & room & Hq & _)]; congruence.
Qed.

Lemma room_not_found_unreachable_witness :
  (reachable_by_calls both_in_r1 ∨ reachable both_in_r1) ∧
  broadcast_path_of both_in_r1 alice = Deliver (KStr "r1") [alice; bob] ∧
  ∀ roomId, broadcast_path_of both_in_r1 alice ≠ RoomNotFound roomId.
Proof.
  assert (reachable_by_calls both_in_r1 ∨ reachable both_in_r1) as H.
  { right. exact both_in_r1_reachable. }
  split; [exact H |]. split; [vm_compute; reflexivity |].
  exact (proj1 (room_not_found_unreachable both_in_r1 alice H)).
Defined.

(** ** What the routers do with envelopes they do not know *)

(** The room server's callback on anything that is not a join with a room
    id: it joins nothing, leaves the directory, and answers and ends as
    broadcastToRoom does. *)
Lemma room_router_relays (d : directory) (readyState : WebSocket → ready_state)
    (ws : WebSocket) (message : json) :
  message ≠ JNull → join_request message = None →
  on_message d readyState ws (Some message) =
    Reaction d (broadcastToRoom d readyState ws message)
      (broadcast_ends d ws) ∧
  (clientToRoom d !! ws = None →
   sent (on_message d readyState ws (Some message)) =
     [(ws, ErrorEnvelope "You must join a room before sending messages.")]) ∧
  (reachable d → ∀ r, clientToRoom d !! ws = Some r →
   ∃ room, rooms d !! r = Some room ∧
     sent (on_message d readyState ws (Some message)) =
       (λ c, (c, Encoded message)) <$>
         filter (λ c, c ≠ ws ∧ readyState c = OPEN) room) ∧
  (clientToRoom d !! ws = None ∨ reachable d →
   ended (on_message d readyState ws (Some message)) = Returned).
Proof.
  intros Hnull Hj. rewrite on_message_no_join by done. simpl.
  split_and!; [done | | |].
  - intros Hnone. by apply broadcast_unassigned.
  - intros Hreach r Hr.
    destruct (broadcast_assigned readyState d ws r message Hreach Hr)
      as (room & Hroom & _ & _ & Hb).
    by exists room.
  - intros [Hnone | Hreach];
      [by apply broadcast_ends_unassigned | by apply broadcast_ends_reachable].
Qed.

Lemma typeof_not_string_no_join (message : json) :
  typeof_string (prop message "type") = false → join_request message = None.
Proof.
  unfold join_request. by destruct (prop message "type") as [[]|].
Qed.

(** C5, on the code: the room server relays an object without [type]. Alice
    and Bob are in room r1; Alice sends [{sdp: "abc"}]; Bob is sent that
    payload and Alice is sent no error envelope. *)
Lemma envelope_validation_counterexample :
  typeof_string (prop no_type "type") = false ∧
  on_message both_in_r1 all_open alice (Some no_type) =
    Reaction both_in_r1 [(bob, Encoded no_type)] Returned ∧
  (∀ reason,
     (alice, ErrorEnvelope reason) ∉
       sent (on_message both_in_r1 all_open alice (Some no_type))).
Proof.
  split; [reflexivity |].
  assert (on_message both_in_r1 all_open alice (Some no_type) =
          Reaction both_in_r1 [(bob, Encoded no_type)] Returned) as Heq.
  { vm_compute. reflexivity. }
  split; [exact Heq |]. intros reason. rewrite Heq. simpl.
  intros [=]%list_elem_of_singleton.
Qed.

(** C5 (envelope validation), as the code has it. For a payload that decodes
    to a value other than null whose [type] is missing or not a string: the
    relay of src/index.ts sends the sender the one error envelope
    "Missing or invalid 'type' field", sends nothing else and keeps its
    peers; the room server has no such check: it joins nothing, leaves the
    directory as it was and hands the payload to broadcastToRoom, so a sender
    without a room is sent the one join-first error envelope, and a sender
    with a room is sent nothing while the payload goes to the other open
    members of its room. The callback ends as
    broadcastToRoom does, which is by returning for a sender without a room
    and in every reachable directory. *)
Theorem envelope_validation_by_router (d : directory) (peers : list WebSocket)
    (readyState : WebSocket → ready_state) (ws : WebSocket) (message : json) :
  message ≠ JNull → typeof_string (prop message "type") = false →
  PeerServer.on_message peers readyState ws (Some message) =
    PeerServer.Reaction peers
      [(ws, ErrorEnvelope "Missing or invalid 'type' field")] Returned ∧
  join_request message = None ∧
  on_message d readyState ws (Some message) =
    Reaction d (broadcastToRoom d readyState ws message)
      (broadcast_ends d ws) ∧
  (clientToRoom d !! ws = None →
   sent (on_message d readyState ws (Some message)) =
     [(ws, ErrorEnvelope "You must join a room before sending messages.")]) ∧
  (reachable d → ∀ r, clientToRoom d !! ws = Some r →
   ∃ room, rooms d !! r = Some room ∧
     sent (on_message d readyState ws (Some message)) =
       (λ c, (c, Encoded message)) <$>
         filter (λ c, c ≠ ws ∧ readyState c = OPEN) room) ∧
  (clientToRoom d !! ws = None ∨ reachable d →
   ended (on_message d readyState ws (Some message)) = Returned).
Proof.
  intros Hnull Htype.
  pose proof (typeof_not_string_no_join message Htype) as Hj.
  split; [| split; [done | by apply room_router_relays]].
  unfold PeerServer.on_message.
  destruct message; try done; by destruct (prop _ "type") as [[]|].
Qed.

Lemma envelope_validation_by_router_witness :
  no_type ≠ JNull ∧ typeof_string (prop no_type "type") = false ∧
  PeerServer.on_message [alice; bob] all_open alice (Some no_type) =
    PeerServer.Reaction [alice; bob]
      [(alice, ErrorEnvelope "Missing or invalid 'type' field")] Returned ∧
  on_message initial all_open alice (Some no_type) =
    Reaction initial (broadcastToRoom initial all_open alice no_type) Returned.
Proof.
  assert (no_type ≠ JNull) as Hnull by discriminate.
  assert (typeof_string (prop no_type "type") = false) as Htype by reflexivity.
  split; [exact Hnull |]. split; [exact Htype |].
  destruct (envelope_validation_by_router initial [alice; bob] all_open alice
              no_type Hnull Htype) as (Hpeer & _ & Hroom & _).
  split; [exact Hpeer | exact Hroom].
Defined.

(** C6, on the code: the room server relays a type it does not know. Alice
    and Bob are in room r1; Alice sends [{type: "ping"}]; Bob is sent that
    envelope and Alice is sent no error envelope. *)
Lemma unknown_type_counterexample :
  prop ping "type" = Some (JStr "ping") ∧
  on_message both_in_r1 all_open alice (Some ping) =
    Reaction both_in_r1 [(bob, Encoded ping)] Returned ∧
  (∀ reason,
     (alice, ErrorEnvelope reason) ∉
       sent (on_message both_in_r1 all_open alice (Some ping))).
Proof.
  split; [reflexivity |].
  assert (on_message both_in_r1 all_open alice (Some ping) =
          Reaction both_in_r1 [(bob, Encoded ping)] Returned) as Heq.
  { vm_compute. reflexivity. }
  split; [exact Heq |]. intros reason. rewrite Heq. simpl.
  intros [=]%list_elem_of_singleton.
Qed.

(** C6 (unknown type), as the code has it. For a message whose [type] is a
    string other than joinRoom, createOffer, createAnswer and iceCandidate:
    the relay of src/index.ts sends the sender the one error envelope
    "Unknown message type: " followed by the type, sends nothing to anyone
    else and keeps its peers; the room server does not look at the type
    beyond joinRoom: it leaves the directory as it was and hands the message
    to broadcastToRoom, so a sender without a room is sent the one
    join-first error envelope, which does not name the type, and a sender
    with a room is sent nothing while the message goes to the other open
    members of its room. The callback ends as
    broadcastToRoom does, which is by returning for a sender without a room
    and in every reachable directory. *)
Theorem unknown_type_by_router (d : directory) (peers : list WebSocket)
    (readyState : WebSocket → ready_state) (ws : WebSocket) (message : json)
    (type : string) :
  prop message "type" = Some (JStr type) →
  type ∉ ["joinRoom"; "createOffer"; "createAnswer"; "iceCandidate"] →
  PeerServer.on_message peers readyState ws (Some message) =
    PeerServer.Reaction peers
      [(ws, ErrorEnvelope ("Unknown message type: " ++ type))] Returned ∧
  join_request message = None ∧
  on_message d readyState ws (Some message) =
    Reaction d (broadcastToRoom d readyState ws message)
      (broadcast_ends d ws) ∧
  (clientToRoom d !! ws = None →
   sent (on_message d readyState ws (Some message)) =
     [(ws, ErrorEnvelope "You must join a room before sending messages.")]) ∧
  (reachable d → ∀ r, clientToRoom d !! ws = Some r →
   ∃ room, rooms d !! r = Some room ∧
     sent (on_message d readyState ws (Some message)) =
       (λ c, (c, Encoded message)) <$>
         filter (λ c, c ≠ ws ∧ readyState c = OPEN) room) ∧
  (clientToRoom d !! ws = None ∨ reachable d →
   ended (on_message d readyState ws (Some message)) = Returned).
Proof.
  intros Htype Hnew.
  assert (message ≠ JNull) as Hnull by (by intros ->).
  assert (∀ s, s ∈ ["joinRoom"; "createOffer"; "createAnswer"; "iceCandidate"]
               → String.eqb type s = false) as Hne.
  { intros s Hs. apply String.eqb_neq. by intros ->. }
  assert (join_request message = None) as Hj.
  { unfold join_request. rewrite Htype. simpl. rewrite Hne; [done |].
    apply list_elem_of_here. }
  split; [| split; [done | by apply room_router_relays]].
  unfold PeerServer.on_message, PeerServer.relayed.
  destruct message; try done; rewrite Htype.
  by rewrite !Hne by (repeat constructor).
Qed.

Lemma unknown_type_by_router_witness :
  prop ping "type" = Some (JStr "ping") ∧
  PeerServer.on_message [alice; bob] all_open alice (Some ping) =
    PeerServer.Reaction [alice; bob]
      [(alice, ErrorEnvelope "Unknown message type: ping")] Returned ∧
  sent (on_message initial all_open alice (Some ping)) =
    [(alice, ErrorEnvelope "You must join a room before sending messages.")].
Proof.
  assert (prop ping "type" = Some (JStr "ping")) as Htype by reflexivity.
  assert ("ping" ∉ ["joinRoom"; "createOffer"; "createAnswer"; "iceCandidate"])
    as Hnew.
  { apply (bool_decide_unpack _). vm_compute. exact I. }
  split; [exact Htype |].
  destruct (unknown_type_by_router initial [alice; bob] all_open alice ping
              "ping" Htype Hnew) as (Hpeer & _ & _ & Hroom & _).
  split; [exact Hpeer |]. apply Hroom. reflexivity.
Defined.

(** C7, on the code: a join without room id from a client that is in a room
    is relayed. Alice and Bob are in room r1; Alice sends
    [{type: "joinRoom"}]; Bob is sent that envelope and Alice is sent no
    error envelope. *)
Lemma join_without_room_id_counterexample :
  prop join_nowhere "type" = Some (JStr "joinRoom") ∧
  prop join_nowhere "roomId" = None ∧
  on_message both_in_r1 all_open alice (Some join_nowhere) =
    Reaction both_in_r1 [(bob, Encoded join_nowhere)] Returned ∧
  (∀ reason,
     (alice, ErrorEnvelope reason) ∉
       sent (on_message both_in_r1 all_open alice (Some join_nowhere))).
Proof.
  split; [reflexivity |]. split; [reflexivity |].
  assert (on_message both_in_r1 all_open alice (Some join_nowhere) =
          Reaction both_in_r1 [(bob, Encoded join_nowhere)] Returned) as Heq.
  { vm_compute. reflexivity. }
  split; [exact Heq |]. intros reason. rewrite Heq. simpl.
  intros [=]%list_elem_of_singleton.
Qed.

(** C7 (join without roomId), as the code has it. For a message with type
    "joinRoom" and no [roomId], the router does not call handleJoinRoom and
    leaves the directory as it was; it hands the message to
    broadcastToRoom: a sender without a room is sent the one join-first
    error envelope, and a sender with a room is sent nothing while the
    message goes to the other open members of its room. The callback ends as
    broadcastToRoom does, which is by returning for a sender without a room
    and in every reachable directory. *)
Theorem join_without_room_id (d : directory)
    (readyState : WebSocket → ready_state) (ws : WebSocket) (message : json) :
  prop message "type" = Some (JStr "joinRoom") →
  prop message "roomId" = None →
  join_request message = None ∧
  on_message d readyState ws (Some message) =
    Reaction d (broadcastToRoom d readyState ws message)
      (broadcast_ends d ws) ∧
  (clientToRoom d !! ws = None →
   sent (on_message d readyState ws (Some message)) =
     [(ws, ErrorEnvelope "You must join a room before sending messages.")]) ∧
  (reachable d → ∀ r, clientToRoom d !! ws = Some r →
   ∃ room, rooms d !! r = Some room ∧
     sent (on_message d readyState ws (Some message)) =
       (λ c, (c, Encoded message)) <$>
         filter (λ c, c ≠ ws ∧ readyState c = OPEN) room) ∧
  (clientToRoom d !! ws = None ∨ reachable d →
   ended (on_message d readyState ws (Some message)) = Returned).
Proof.
  intros Htype Hid.
  assert (message ≠ JNull) as Hnull by (by intros ->).
  assert (join_request message = None) as Hj.
  { unfold join_request. by rewrite Htype, Hid. }
  split; [done | by apply room_router_relays].
Qed.

Lemma join_without_room_id_witness :
  prop join_nowhere "type" = Some (JStr "joinRoom") ∧
  prop join_nowhere "roomId" = None ∧
  on_message initial all_open alice (Some join_nowhere) =
    Reaction initial
      [(alice, ErrorEnvelope "You must join a room before sending messages.")]
      Returned.
Proof.
  assert (prop join_nowhere "type" = Some (JStr "joinRoom")) as Ht
    by reflexivity.
  assert (prop join_nowhere "roomId" = None) as Hi by reflexivity.
  split; [exact Ht |]. split; [exact Hi |].
  destruct (join_without_room_id initial all_open alice join_nowhere Ht Hi)
    as (_ & Hto & _).
  rewrite Hto. vm_compute. reflexivity.
Defined.

(** * Further properties of the room server *)

(** ** Lookups in the directory a disconnect leaves *)
Section disconnect_lookups.
Implicit Types (d : directory) (c ws : WebSocket) (r k : key)
  (room : list WebSocket).

Lemma set_delete_absent ws room : ws ∉ room → set_delete ws room = room.
Proof.
  intros Hnot. unfold set_delete. induction room as [|c room IH]; [done |].
  apply not_elem_of_cons in Hnot as [Hne Hnot].
  rewrite filter_cons_True by done. by rewrite IH.
Qed.

Lemma set_delete_add ws room : ws ∉ room → set_delete ws (set_add ws room) = room.
Proof.
  intros Hnot. unfold set_add. rewrite decide_False by done.
  unfold set_delete. rewrite filter_app.
  rewrite filter_cons_False, filter_nil by (by intros ?).
  rewrite app_nil_r. by apply set_delete_absent.
Qed.

Lemma set_delete_comm (a b : WebSocket) room :
  set_delete a (set_delete b room) = set_delete b (set_delete a room).
Proof.
  unfold set_delete. rewrite !list_filter_filter.
  apply list_filter_iff. tauto.
Qed.

Lemma directory_eq d1 d2 :
  (∀ r, rooms d1 !! r = rooms d2 !! r) →
  (∀ c, clientToRoom d1 !! c = clientToRoom d2 !! c) → d1 = d2.
Proof.
  destruct d1 as [r1 c1], d2 as [r2 c2]. simpl. intros Hr Hc.
  f_equal; by apply map_eq.
Qed.

End disconnect_lookups.

(** ** Joining and leaving, composed *)
Section join_and_leave.
Implicit Types (d : directory) (c ws : WebSocket) (r k roomId : key).

Lemma rooms_lookup_join d ws roomId r :
  clientToRoom d !! ws = None →
  rooms (handleJoinRoom d ws roomId) !! r =
  if decide (r = roomId) then Some (set_add ws (default [] (rooms d !! roomId)))
  else rooms d !! r.
Proof.
  intros Hnone. unfold handleJoinRoom. rewrite Hnone.
  destruct (rooms d !! roomId) as [room|] eqn:Hroom; simpl;
    case_decide; subst;
    by rewrite ?lookup_insert_eq, ?lookup_insert_ne by done.
Qed.

(** In a consistent directory a socket without a room is in no member set. *)
Lemma unassigned_not_member d ws roomId :
  consistent d → clientToRoom d !! ws = None →
  ws ∉ default [] (rooms d !! roomId).
Proof.
  intros Hd Hnone Hin.
  destruct (rooms d !! roomId) as [room|] eqn:Hroom; simpl in Hin.
  - assert (member d ws roomId) as Hm%Hd by by exists room. congruence.
  - by apply elem_of_nil in Hin.
Qed.

Lemma after_disconnect_unassigned d ws :
  ids_truthy d → clientToRoom (handleDisconnect d ws) !! ws = None.
Proof.
  intros Hd. destruct (clientToRoom d !! ws) as [k|] eqn:Hk.
  - rewrite (lookup_disconnect d ws k) by eauto. by rewrite decide_True.
  - by rewrite disconnect_unassigned.
Qed.

End join_and_leave.

(** X1. A join with a truthy room id from a socket without a room sends
    nothing, puts the socket last in the member set of that room (a new
    set when the room did not exist), maps the socket to the room, and
    leaves every other room and every other socket's mapping as it was.
    The callback returns when the room id can be printed in the log line
    and throws, with both maps already written, when it cannot. *)
Theorem join_appends (d : directory) (readyState : WebSocket → ready_state)
    (ws : WebSocket) (message id : json) :
  reachable d → clientToRoom d !! ws = None →
  join_request message = Some id →
  on_message d readyState ws (Some message) =
    Reaction (handleJoinRoom d ws (to_key id)) []
      (if to_string_throws id then ThrewTypeError else Returned) ∧
  rooms (handleJoinRoom d ws (to_key id)) !! to_key id =
    Some (default [] (rooms d !! to_key id) ++ [ws]) ∧
  clientToRoom (handleJoinRoom d ws (to_key id)) !! ws = Some (to_key id) ∧
  (∀ r, r ≠ to_key id →
     rooms (handleJoinRoom d ws (to_key id)) !! r = rooms d !! r) ∧
  (∀ c, c ≠ ws →
     clientToRoom (handleJoinRoom d ws (to_key id)) !! c =
     clientToRoom d !! c).
Proof.
  intros Hreach Hnone Hj.
  destruct (calls_invariant d (reachable_calls d Hreach)) as (I1 & _).
  split_and!.
  - rewrite (on_message_join readyState d ws message id Hj).
    unfold handleJoinRoom_ends. by rewrite Hnone, unprintable_to_key.
  - rewrite rooms_lookup_join, decide_True by done. f_equal.
    unfold set_add. rewrite decide_False; [done |].
    by apply unassigned_not_member.
  - rewrite lookup_join by done. by rewrite decide_True.
  - intros r Hr. rewrite rooms_lookup_join by done. by rewrite decide_False.
  - intros c Hc. rewrite lookup_join by done. by rewrite decide_False.
Qed.

Lemma join_appends_witness :
  reachable alice_in_r1 ∧ clientToRoom alice_in_r1 !! bob = None ∧
  join_request join_r1 = Some (JStr "r1") ∧
  rooms (handleJoinRoom alice_in_r1 bob (KStr "r1")) !! KStr "r1" =
    Some (default [] (rooms alice_in_r1 !! KStr "r1") ++ [bob]).
Proof.
  assert (reachable alice_in_r1) as H.
  { unfold alice_in_r1. apply reachable_event. constructor. }
  assert (clientToRoom alice_in_r1 !! bob = None) as Hb
    by (vm_compute; reflexivity).
  assert (join_request join_r1 = Some (JStr "r1")) as Hj by reflexivity.
  split; [exact H |]. split; [exact Hb |]. split; [exact Hj |].
  exact (proj1 (proj2 (join_appends alice_in_r1 all_open bob join_r1
                         (JStr "r1") H Hb Hj))).
Defined.

(** X2. Joining and then disconnecting gives back the directory: while the
    server runs, for a socket without a room and a truthy room id that can
    be printed, handleDisconnect after handleJoinRoom returns both maps
    exactly as they were, the room deleted again when the join had created
    it. *)
Theorem join_then_disconnect (d : directory) (ws : WebSocket) (roomId : key) :
  serving d → clientToRoom d !! ws = None → falsy roomId = false →
  unprintable roomId = false →
  handleDisconnect (handleJoinRoom d ws roomId) ws = d.
Proof.
  intros Hserve Hnone Hf Hprint.
  destruct (serving_invariant d Hserve) as [I2 _].
  destruct (calls_invariant d (reachable_calls d (serving_reachable d Hserve)))
    as (I1 & _).
  assert (clientToRoom (handleJoinRoom d ws roomId) !! ws = Some roomId) as Hws.
  { rewrite lookup_join by done. by rewrite decide_True. }
  apply directory_eq.
  - intros r. rewrite (rooms_lookup_disconnect _ ws roomId) by done.
    destruct (decide (r = roomId)) as [-> | Hr].
    + rewrite rooms_lookup_join, decide_True by done. unfold room_without.
      rewrite Hprint, set_delete_add by by apply unassigned_not_member.
      destruct (rooms d !! roomId) as [room|] eqn:Hroom; simpl; [| done].
      rewrite decide_False; [done |].
      intros Hlen%nil_length_inv. by apply (I2 roomId room).
    + rewrite rooms_lookup_join by done. by rewrite decide_False.
  - intros c. rewrite (lookup_disconnect _ ws roomId) by done.
    rewrite lookup_join by done. by case_decide; subst.
Qed.

Lemma join_then_disconnect_witness :
  serving alice_in_r1 ∧ clientToRoom alice_in_r1 !! bob = None ∧
  falsy (KStr "r2") = false ∧ unprintable (KStr "r2") = false ∧
  handleDisconnect (handleJoinRoom alice_in_r1 bob (KStr "r2")) bob =
    alice_in_r1.
Proof.
  assert (clientToRoom alice_in_r1 !! bob = None) as Hb
    by (vm_compute; reflexivity).
  assert (falsy (KStr "r2") = false) as Hf by reflexivity.
  assert (unprintable (KStr "r2") = false) as Hp by reflexivity.
  split; [exact alice_in_r1_serving |]. split; [exact Hb |].
  split; [exact Hf |]. split; [exact Hp |].
  exact (join_then_disconnect alice_in_r1 bob (KStr "r2") alice_in_r1_serving
           Hb Hf Hp).
Defined.

(** X3. handleJoinRoom called with a falsy room id (the empty string, for
    one) leaves a socket that nothing removes: the socket is in the member
    set, yet handleDisconnect returns the directory unchanged, every later
    handleJoinRoom for it does too, and broadcastToRoom answers it with the
    join-first error envelope. *)
Theorem falsy_room_id_strands (d : directory)
    (readyState : WebSocket → ready_state) (ws : WebSocket) (roomId : key)
    (message : json) :
  clientToRoom d !! ws = None → falsy roomId = true →
  member (handleJoinRoom d ws roomId) ws roomId ∧
  handleDisconnect (handleJoinRoom d ws roomId) ws =
    handleJoinRoom d ws roomId ∧
  (∀ k, handleJoinRoom (handleJoinRoom d ws roomId) ws k =
        handleJoinRoom d ws roomId) ∧
  broadcastToRoom (handleJoinRoom d ws roomId) readyState ws message =
    [(ws, ErrorEnvelope "You must join a room before sending messages.")].
Proof.
  intros Hnone Hf.
  assert (clientToRoom (handleJoinRoom d ws roomId) !! ws = Some roomId) as Hws.
  { rewrite lookup_join by done. by rewrite decide_True. }
  split_and!.
  - apply member_join; [done | by left].
  - by apply (disconnect_falsy _ ws roomId).
  - intros k. by apply join_assigned.
  - unfold broadcastToRoom, broadcast_path_of. by rewrite Hws, Hf.
Qed.

Lemma falsy_room_id_strands_witness :
  clientToRoom initial !! alice = None ∧ falsy (KStr "") = true ∧
  handleDisconnect (handleJoinRoom initial alice (KStr "")) alice =
    handleJoinRoom initial alice (KStr "").
Proof.
  assert (clientToRoom initial !! alice = None) as Hnone by reflexivity.
  assert (falsy (KStr "") = true) as Hf by reflexivity.
  split; [exact Hnone |]. split; [exact Hf |].
  exact (proj1 (proj2 (falsy_room_id_strands initial all_open alice (KStr "")
                         offer Hnone Hf))).
Defined.

(** X4. One disconnect is enough: handleDisconnect run a second time for
    the same socket changes nothing, so the error callback followed by the
    close callback leaves the directory the close callback alone leaves. *)
Theorem disconnect_idempotent (d : directory) (ws : WebSocket)
    (readyState readyState' : WebSocket → ready_state) :
  handleDisconnect (handleDisconnect d ws) ws = handleDisconnect d ws ∧
  after (handle (after (handle d readyState (Error ws))) readyState' (Close ws))
    = after (handle d readyState (Close ws)).
Proof.
  assert (handleDisconnect (handleDisconnect d ws) ws = handleDisconnect d ws)
    as Hidem; [| by split].
  destruct (clientToRoom d !! ws) as [k|] eqn:Hk.
  - destruct (falsy k) eqn:Hf.
    + by rewrite !(disconnect_falsy d ws k Hk Hf).
    + apply disconnect_unassigned.
      rewrite (lookup_disconnect d ws k) by done. by rewrite decide_True.
  - by rewrite !(disconnect_unassigned d ws Hk).
Qed.

(** X5. After its disconnect a socket is as new: in a directory the server
    reaches, once handleDisconnect has run the socket has no mapping and is
    in no member set, a message from it gets the join-first error envelope,
    and a join by it takes effect, for any room id. *)
Theorem disconnect_frees (d : directory) (ws : WebSocket) :
  reachable d →
  clientToRoom (handleDisconnect d ws) !! ws = None ∧
  (∀ r, ¬ member (handleDisconnect d ws) ws r) ∧
  (∀ readyState message,
     broadcastToRoom (handleDisconnect d ws) readyState ws message =
     [(ws, ErrorEnvelope "You must join a room before sending messages.")]) ∧
  (∀ roomId,
     clientToRoom (handleJoinRoom (handleDisconnect d ws) ws roomId) !! ws =
       Some roomId ∧
     member (handleJoinRoom (handleDisconnect d ws) ws roomId) ws roomId).
Proof.
  intros Hreach.
  assert (clientToRoom (handleDisconnect d ws) !! ws = None) as Hnone.
  { by apply after_disconnect_unassigned, reachable_ids_truthy. }
  assert (consistent (handleDisconnect d ws)) as I1.
  { by apply disconnect_consistent, calls_invariant, reachable_calls. }
  split_and!; [done | | |].
  - intros r Hm%I1. congruence.
  - intros readyState message. by apply broadcast_unassigned.
  - intros roomId. split.
    + rewrite lookup_join by done. by rewrite decide_True.
    + apply member_join; [done | by left].
Qed.

Lemma disconnect_frees_witness :
  reachable both_in_r1 ∧
  clientToRoom (handleDisconnect both_in_r1 alice) !! alice = None.
Proof.
  split; [exact both_in_r1_reachable |].
  exact (proj1 (disconnect_frees both_in_r1 alice both_in_r1_reachable)).
Defined.

(** ** What an event does to the other sockets *)

(** X6. An event of one socket never touches the membership of another: a
    message, close or error callback of [ws] leaves the mapping of every
    other socket and its membership in every room as they were. *)
Theorem other_sockets_untouched (d : directory)
    (readyState : WebSocket → ready_state) (e : event) (c : WebSocket) :
  c ≠ socket_of e →
  clientToRoom (after (handle d readyState e)) !! c = clientToRoom d !! c ∧
  ∀ r, member (after (handle d readyState e)) c r ↔ member d c r.
Proof.
  intros Hc.
  assert (∀ ws, c ≠ ws →
            clientToRoom (handleDisconnect d ws) !! c = clientToRoom d !! c ∧
            ∀ r, member (handleDisconnect d ws) c r ↔ member d c r) as Hleave.
  { intros ws Hne. destruct (clientToRoom d !! ws) as [k|] eqn:Hk.
    - destruct (falsy k) eqn:Hf.
      + by rewrite (disconnect_falsy d ws k).
      + split.
        * rewrite (lookup_disconnect d ws k) by done. by rewrite decide_False.
        * intros r. rewrite (member_disconnect d ws k) by done. tauto.
    - by rewrite disconnect_unassigned. }
  destruct e as [ws data|ws|ws]; simpl in *; [| by apply Hleave..].
  destruct (on_message_after d readyState ws data) as [-> | (k & _ & ->)];
    [done |].
  destruct (clientToRoom d !! ws) as [k'|] eqn:Hws.
  { by rewrite join_assigned. }
  split.
  - rewrite lookup_join by done. by rewrite decide_False.
  - intros r. rewrite member_join by done. tauto.
Qed.

Lemma other_sockets_untouched_witness :
  bob ≠ socket_of (Close alice) ∧
  clientToRoom (after (handle both_in_r1 all_open (Close alice))) !! bob =
    clientToRoom both_in_r1 !! bob.
Proof.
  assert (bob ≠ socket_of (Close alice)) as H by discriminate.
  split; [exact H |].
  exact (proj1 (other_sockets_untouched both_in_r1 all_open (Close alice)
                  bob H)).
Defined.

(** X7. No message takes a socket out of its room or moves it: whatever
    any socket sends, a socket that clientToRoom maps to a room is mapped to
    the same room afterwards, and a member of a room is still a member of
    it. Only the close and error callbacks remove. *)
Theorem message_keeps_rooms (d : directory)
    (readyState : WebSocket → ready_state) (ws : WebSocket)
    (data : option json) (c : WebSocket) (r : key) :
  clientToRoom d !! c = Some r →
  clientToRoom (after (on_message d readyState ws data)) !! c = Some r ∧
  (member d c r → member (after (on_message d readyState ws data)) c r).
Proof.
  intros Hc.
  destruct (on_message_after d readyState ws data) as [-> | (k & _ & ->)];
    [done |].
  destruct (clientToRoom d !! ws) as [k'|] eqn:Hws.
  { by rewrite join_assigned. }
  assert (c ≠ ws) as Hne by congruence.
  split.
  - rewrite lookup_join by done. by rewrite decide_False.
  - intros Hm. apply member_join; [done | by right].
Qed.

Lemma message_keeps_rooms_witness :
  clientToRoom both_in_r1 !! alice = Some (KStr "r1") ∧
  clientToRoom
    (after (on_message both_in_r1 all_open alice (Some join_empty))) !! alice
    = Some (KStr "r1").
Proof.
  split; [exact both_in_r1_alice |].
  exact (proj1 (message_keeps_rooms both_in_r1 all_open alice
                  (Some join_empty) alice (KStr "r1") both_in_r1_alice)).
Defined.

(** X8. The rooms map holds exactly the room ids in use: in a directory of
    the running server, a room id has an entry in rooms exactly when
    clientToRoom maps some socket to it; so once no socket is mapped, both
    maps are empty again. *)
Theorem rooms_are_ids_in_use (d : directory) :
  serving d →
  (∀ r, is_Some (rooms d !! r) ↔ ∃ c, clientToRoom d !! c = Some r) ∧
  (clientToRoom d = ∅ → d = initial).
Proof.
  intros Hserve.
  destruct (serving_invariant d Hserve) as [I2 _].
  destruct (calls_invariant d (reachable_calls d (serving_reachable d Hserve)))
    as (I1 & _).
  assert (∀ r, is_Some (rooms d !! r) ↔ ∃ c, clientToRoom d !! c = Some r)
    as Huse.
  { intros r. split.
    - intros [room Hroom]. destruct room as [|c room]; [by apply I2 in Hroom |].
      exists c. apply I1. exists (c :: room). split; [done | apply list_elem_of_here].
    - intros [c (room & Hroom & _)%I1]. by exists room. }
  split; [done |]. intros Hempty. apply directory_eq.
  - intros r. simpl. rewrite lookup_empty.
    destruct (rooms d !! r) as [room|] eqn:Hroom; [| done].
    destruct (proj1 (Huse r)) as [c Hc]; [by rewrite Hroom |].
    by rewrite Hempty, lookup_empty in Hc.
  - intros c. by rewrite Hempty.
Qed.

Lemma rooms_are_ids_in_use_witness :
  serving both_in_r1 ∧
  (is_Some (rooms both_in_r1 !! KStr "r1") ↔
   ∃ c, clientToRoom both_in_r1 !! c = Some (KStr "r1")).
Proof.
  split; [exact both_in_r1_serving |].
  exact (proj1 (rooms_are_ids_in_use both_in_r1 both_in_r1_serving)
           (KStr "r1")).
Defined.

(** ** What the message callback sends *)

Lemma sent_on_message (d : directory) (readyState : WebSocket → ready_state)
    (ws : WebSocket) (message : json) :
  sent (on_message d readyState ws (Some message)) = [] ∨
  sent (on_message d readyState ws (Some message)) =
    broadcastToRoom d readyState ws message.
Proof.
  unfold on_message.
  destruct message; try (by left); (destruct (join_request _); [by left | by right]).
Qed.

Lemma bob_gets_offer :
  (bob, Encoded offer) ∈
    sent (on_message both_in_r1 all_open alice (Some offer)).
Proof. rewrite scenario_offer. simpl. by apply list_elem_of_singleton. Qed.

(** X9. Every frame the message callback sends is accounted for: it is
    either the one error envelope of this call, sent to the sender and alone,
    or the received value re-encoded, sent to a socket other than the sender
    whose readyState is OPEN. *)
Theorem every_frame_accounted (d : directory)
    (readyState : WebSocket → ready_state) (ws : WebSocket)
    (data : option json) (c : WebSocket) (f : frame) :
  (c, f) ∈ sent (on_message d readyState ws data) →
  (c = ws ∧ ∃ reason,
     f = ErrorEnvelope reason ∧
     sent (on_message d readyState ws data) = [(ws, ErrorEnvelope reason)]) ∨
  (c ≠ ws ∧ readyState c = OPEN ∧
   ∃ message, data = Some message ∧ f = Encoded message).
Proof.
  destruct data as [message|].
  2: { simpl. intros [= -> ->]%list_elem_of_singleton. left. eauto. }
  destruct (sent_on_message d readyState ws message) as [-> | ->].
  { by intros ?%elem_of_nil. }
  unfold broadcastToRoom. destruct (broadcast_path_of d ws) as [|k|k room].
  - intros [= -> ->]%list_elem_of_singleton. left. eauto.
  - by intros ?%elem_of_nil.
  - intros (-> & _ & Hne & Hopen)%elem_of_fan_out. right. eauto.
Qed.

Lemma every_frame_accounted_witness :
  (bob, Encoded offer) ∈ sent (on_message both_in_r1 all_open alice (Some offer))
  ∧ all_open bob = OPEN.
Proof.
  assert ((bob, Encoded offer) ∈
          sent (on_message both_in_r1 all_open alice (Some offer))) as H.
  { exact bob_gets_offer. }
  split; [exact H |].
  destruct (every_frame_accounted both_in_r1 all_open alice (Some offer) bob
              (Encoded offer) H) as [[Heq _] | (_ & Hopen & _)].
  - discriminate Heq.
  - exact Hopen.
Defined.

(** X10. No frame crosses rooms: in a directory the server reaches, a
    socket other than the sender is sent something only when the sender has
    a room and clientToRoom maps that socket to the same room. Sockets of
    other rooms and sockets without a room receive nothing. *)
Theorem no_cross_room_traffic (d : directory)
    (readyState : WebSocket → ready_state) (ws : WebSocket)
    (data : option json) (c : WebSocket) (f : frame) :
  reachable d → (c, f) ∈ sent (on_message d readyState ws data) → c ≠ ws →
  ∃ r, clientToRoom d !! ws = Some r ∧ clientToRoom d !! c = Some r.
Proof.
  intros Hreach Hin Hne.
  destruct data as [message|].
  2: { simpl in Hin. by apply list_elem_of_singleton in Hin as [= -> _]. }
  destruct (calls_invariant d (reachable_calls d Hreach)) as (I1 & _).
  assert ((c, f) ∈ broadcastToRoom d readyState ws message) as Hb.
  { destruct (sent_on_message d readyState ws message) as [Hs | Hs];
      rewrite Hs in Hin; [by apply elem_of_nil in Hin | done]. }
  destruct (clientToRoom d !! ws) as [r|] eqn:Hws.
  - exists r. split; [done |].
    destruct (broadcast_assigned readyState d ws r message Hreach Hws)
      as (room & Hroom & _ & _ & Heq).
    rewrite Heq in Hb. apply elem_of_fan_out in Hb as (_ & Hc & _).
    apply I1. by exists room.
  - rewrite broadcast_unassigned in Hb by done.
    by apply list_elem_of_singleton in Hb as [= -> _].
Qed.

Lemma no_cross_room_traffic_witness :
  reachable both_in_r1 ∧
  (bob, Encoded offer) ∈ sent (on_message both_in_r1 all_open alice (Some offer))
  ∧ bob ≠ alice ∧
  ∃ r, clientToRoom both_in_r1 !! alice = Some r ∧
       clientToRoom both_in_r1 !! bob = Some r.
Proof.
  assert ((bob, Encoded offer) ∈
          sent (on_message both_in_r1 all_open alice (Some offer))) as H.
  { exact bob_gets_offer. }
  assert (bob ≠ alice) as Hne by discriminate.
  split; [exact both_in_r1_reachable |]. split; [exact H |].
  split; [exact Hne |].
  exact (no_cross_room_traffic both_in_r1 all_open alice (Some offer) bob
           (Encoded offer) both_in_r1_reachable H Hne).
Defined.

(** ** How many sends a broadcast makes *)
Section counting.
Implicit Types (c ws : WebSocket) (room : list WebSocket).

Lemma length_set_delete ws room :
  NoDup room → ws ∈ room → S (length (set_delete ws room)) = length room.
Proof.
  induction 1 as [|c room Hc Hnd IH]; [by intros ?%elem_of_nil |].
  intros [Heq | Hin]%elem_of_cons; [subst c |]; unfold set_delete.
  - rewrite filter_cons_False by (by intros ?).
    fold (set_delete ws room). by rewrite set_delete_absent.
  - rewrite filter_cons_True by (by intros ->). simpl.
    fold (set_delete ws room). by rewrite IH.
Qed.

Lemma length_fan_out_le readyState ws (m : json) room :
  length (fan_out readyState ws m room) ≤ length (set_delete ws room).
Proof.
  unfold fan_out, set_delete. rewrite length_fmap.
  rewrite <- (list_filter_filter_l (λ c, c ≠ ws ∧ readyState c = OPEN)
                (λ c, c ≠ ws)) by tauto.
  apply length_filter.
Qed.

Lemma length_fan_out_open readyState ws (m : json) room :
  (∀ c, c ∈ room → readyState c = OPEN) →
  length (fan_out readyState ws m room) = length (set_delete ws room).
Proof.
  intros Hopen. unfold fan_out, set_delete. rewrite length_fmap.
  induction room as [|c room IH]; [done |].
  assert (readyState c = OPEN) as Hc by apply Hopen, list_elem_of_here.
  assert (∀ c', c' ∈ room → readyState c' = OPEN) as Hrest.
  { intros c' Hin. by apply Hopen, list_elem_of_further. }
  destruct (decide (c = ws)) as [-> | Hne].
  - rewrite !filter_cons_False by tauto. by apply IH.
  - rewrite !filter_cons_True by tauto. simpl. f_equal. by apply IH.
Qed.

End counting.

(** X11. A broadcast in a room of n members makes at most n - 1 sends, and
    exactly n - 1 when every member is open: in a directory the server
    reaches, for a sender mapped to a room, the calls to send plus one (for
    the sender, who is skipped) never exceed the size of the room. *)
Theorem broadcast_count (d : directory) (readyState : WebSocket → ready_state)
    (senderWs : WebSocket) (roomId : key) (message : json) :
  reachable d → clientToRoom d !! senderWs = Some roomId →
  ∃ room,
    rooms d !! roomId = Some room ∧
    S (length (broadcastToRoom d readyState senderWs message)) ≤ length room ∧
    ((∀ c, c ∈ room → readyState c = OPEN) →
     S (length (broadcastToRoom d readyState senderWs message)) = length room).
Proof.
  intros Hreach Hr.
  destruct (broadcast_assigned readyState d senderWs roomId message Hreach Hr)
    as (room & Hroom & Hin & Hnd & ->).
  exists room. split; [done |].
  rewrite <- (length_set_delete senderWs room) by done. split.
  - apply le_n_S, length_fan_out_le.
  - intros Hopen. f_equal. by apply length_fan_out_open.
Qed.

Lemma broadcast_count_witness :
  reachable both_in_r1 ∧
  clientToRoom both_in_r1 !! alice = Some (KStr "r1") ∧
  ∃ room,
    rooms both_in_r1 !! KStr "r1" = Some room ∧
    S (length (broadcastToRoom both_in_r1 all_open alice offer)) ≤ length room.
Proof.
  split; [exact both_in_r1_reachable |].
  split; [exact both_in_r1_alice |].
  destruct (broadcast_count both_in_r1 all_open alice (KStr "r1") offer
              both_in_r1_reachable both_in_r1_alice)
    as (room & Hroom & Hle & _).
  exists room. split; [exact Hroom | exact Hle].
Defined.

(** ** Disconnects in either order *)
Section disconnect_order.
Implicit Types (d : directory) (a b c ws : WebSocket) (r k : key).

Lemma room_without_twice a b (threw : bool) (room : list WebSocket) :
  room_without a threw (room_without b threw (Some room)) =
  if threw then Some (set_delete a (set_delete b room))
  else if decide (length (set_delete a (set_delete b room)) = 0) then None
  else Some (set_delete a (set_delete b room)).
Proof.
  destruct threw; [done |].
  unfold room_without at 2. case_decide as Hb; [| done].
  apply nil_length_inv in Hb. by rewrite Hb.
Qed.

Lemma room_without_comm a b (threw : bool) (entry : option (list WebSocket)) :
  room_without a threw (room_without b threw entry) =
  room_without b threw (room_without a threw entry).
Proof.
  destruct entry as [room|]; [| done].
  by rewrite !room_without_twice, (set_delete_comm a b).
Qed.

Lemma lookup_disconnect_other d ws c :
  c ≠ ws → clientToRoom (handleDisconnect d ws) !! c = clientToRoom d !! c.
Proof.
  intros Hne. destruct (clientToRoom d !! ws) as [k|] eqn:Hk.
  - destruct (falsy k) eqn:Hf.
    + by rewrite (disconnect_falsy d ws k).
    + rewrite (lookup_disconnect d ws k) by done. by rewrite decide_False.
  - by rewrite disconnect_unassigned.
Qed.

(** A disconnect that does nothing still does nothing after another
    socket's disconnect. *)
Lemma disconnect_noop_after d a b :
  a ≠ b → handleDisconnect d a = d →
  clientToRoom d !! a = None ∨
    (∃ k, clientToRoom d !! a = Some k ∧ falsy k = true) →
  handleDisconnect (handleDisconnect d b) a = handleDisconnect d b.
Proof.
  intros Hne _ Hnoop.
  pose proof (lookup_disconnect_other d b a Hne) as Hsame.
  destruct Hnoop as [Hnone | (k & Hk & Hf)].
  - apply disconnect_unassigned. congruence.
  - apply (disconnect_falsy _ a k); congruence.
Qed.

End disconnect_order.

(** X12. Disconnects commute: whatever the directory, running
    handleDisconnect for two sockets in one order or the other leaves the
    same directory. *)
Theorem disconnects_commute (d : directory) (a b : WebSocket) :
  handleDisconnect (handleDisconnect d a) b =
  handleDisconnect (handleDisconnect d b) a.
Proof.
  destruct (decide (a = b)) as [-> | Hne]; [done |].
  destruct (clientToRoom d !! a) as [ka|] eqn:Ha.
  2: { rewrite (disconnect_noop_after d a b), (disconnect_unassigned d a);
         auto using disconnect_unassigned. }
  destruct (falsy ka) eqn:Hfa.
  { rewrite (disconnect_noop_after d a b), (disconnect_falsy d a ka);
      eauto using disconnect_falsy. }
  destruct (clientToRoom d !! b) as [kb|] eqn:Hb.
  2: { rewrite (disconnect_noop_after d b a), (disconnect_unassigned d b);
         auto using disconnect_unassigned. }
  destruct (falsy kb) eqn:Hfb.
  { rewrite (disconnect_noop_after d b a), (disconnect_falsy d b kb);
      eauto using disconnect_falsy. }
  assert (clientToRoom (handleDisconnect d a) !! b = Some kb) as Hb'.
  { by rewrite lookup_disconnect_other by done. }
  assert (clientToRoom (handleDisconnect d b) !! a = Some ka) as Ha'.
  { by rewrite lookup_disconnect_other by done. }
  apply directory_eq.
  - intros r.
    rewrite (rooms_lookup_disconnect (handleDisconnect d a) b kb),
      (rooms_lookup_disconnect (handleDisconnect d b) a ka) by done.
    rewrite !(rooms_lookup_disconnect d a ka), !(rooms_lookup_disconnect d b kb)
      by done.
    destruct (decide (ka = kb)) as [<- | Hk].
    + rewrite !(decide_True (P := ka = ka)) by done.
      case_decide; [apply room_without_comm | done].
    + rewrite (decide_False (P := kb = ka)) by done. simpl.
      repeat case_decide; subst; done.
  - intros c.
    rewrite (lookup_disconnect (handleDisconnect d a) b kb),
      (lookup_disconnect (handleDisconnect d b) a ka) by done.
    rewrite (lookup_disconnect d a ka), (lookup_disconnect d b kb) by done.
    repeat case_decide; done.
Qed.

(** X13. The callbacks store truthy room ids only: in a directory the
    server reaches, no falsy key (null, false, 0 or the empty string) has an
    entry in rooms and no socket is mapped to one, so the test [!roomId] of
    handleDisconnect and broadcastToRoom fails only for sockets without a
    mapping. *)
Theorem falsy_ids_never_stored (d : directory) (r : key) :
  reachable d → falsy r = true →
  rooms d !! r = None ∧
  (∀ c, clientToRoom d !! c = Some r → False) ∧
  (∀ ws, broadcast_path_of d ws = NotInRoom ↔ clientToRoom d !! ws = None).
Proof.
  intros Hreach Hf.
  pose proof (reachable_ids_truthy d Hreach) as Hids.
  destruct (calls_invariant d (reachable_calls d Hreach)) as (I1 & _).
  assert (∀ c, clientToRoom d !! c = Some r → False) as Hnobody.
  { intros c Hc%Hids. congruence. }
  split_and!; [| done |].
  - destruct (rooms d !! r) as [room|] eqn:Hroom; [| done].
    assert (falsy r = false) as Hr; [| congruence].
    apply (reachable_rooms_truthy d); [done | by rewrite Hroom].
  - intros ws. unfold broadcast_path_of.
    destruct (clientToRoom d !! ws) as [k|] eqn:Hk; [| done].
    rewrite (Hids ws k Hk).
    destruct (proj2 (I1 ws k) Hk) as (room & -> & _). done.
Qed.

Lemma falsy_ids_never_stored_witness :
  reachable both_in_r1 ∧ falsy KNull = true ∧ rooms both_in_r1 !! KNull = None.
Proof.
  assert (falsy KNull = true) as Hf by reflexivity.
  split; [exact both_in_r1_reachable |]. split; [exact Hf |].
  exact (proj1 (falsy_ids_never_stored both_in_r1 KNull both_in_r1_reachable
                  Hf)).
Defined.

(** * Properties of the relay of src/index.ts *)
Section peer_relay.
Implicit Types (peers : list WebSocket) (ws c : WebSocket).

Lemma relayed_spec (type : string) :
  PeerServer.relayed type = true ↔
  type ∈ ["createOffer"; "createAnswer"; "iceCandidate"].
Proof.
  unfold PeerServer.relayed.
  rewrite !orb_true_iff, !String.eqb_eq, !elem_of_cons, elem_of_nil. tauto.
Qed.

Lemma peer_message_after peers readyState ws data :
  PeerServer.after (PeerServer.on_message peers readyState ws data) = peers.
Proof. unfold PeerServer.on_message. by repeat case_match. Qed.

Lemma peers_nodup peers : PeerServer.reachable peers → NoDup peers.
Proof.
  induction 1 as [|peers readyState e _ IH]; [apply NoDup_nil_2 |].
  destruct e as [ws|ws data|ws|ws]; simpl.
  - by apply NoDup_set_add.
  - by rewrite peer_message_after.
  - by apply NoDup_set_delete.
  - done.
Qed.

End peer_relay.

(** X14. The relay forwards the three negotiation types to everybody else:
    for a message whose type is createOffer, createAnswer or iceCandidate,
    the message callback sends the re-encoded message once to each peer
    that is not the sender and whose readyState is OPEN, sends nothing to
    the sender and keeps the set of peers. *)
Theorem relay_fan_out (peers : list WebSocket)
    (readyState : WebSocket → ready_state) (ws : WebSocket) (message : json)
    (type : string) :
  PeerServer.reachable peers →
  prop message "type" = Some (JStr type) →
  type ∈ ["createOffer"; "createAnswer"; "iceCandidate"] →
  PeerServer.on_message peers readyState ws (Some message) =
    PeerServer.Reaction peers
      ((λ c, (c, Encoded message)) <$>
         filter (λ c, c ≠ ws ∧ readyState c = OPEN) peers)
      Returned ∧
  NoDup (PeerServer.sent
           (PeerServer.on_message peers readyState ws (Some message))) ∧
  ∀ f, (ws, f) ∉ PeerServer.sent
                    (PeerServer.on_message peers readyState ws (Some message)).
Proof.
  intros Hreach Htype Hrel%relayed_spec.
  assert (PeerServer.on_message peers readyState ws (Some message) =
          PeerServer.Reaction peers (fan_out readyState ws message peers)
            Returned) as ->.
  { unfold PeerServer.on_message. destruct message; try done.
    by rewrite Htype, Hrel. }
  simpl. split_and!; [done | |].
  - by apply NoDup_fan_out, peers_nodup.
  - intros f. apply fan_out_spares_sender.
Qed.

Lemma relay_fan_out_witness :
  PeerServer.reachable [alice; bob] ∧
  prop offer "type" = Some (JStr "createOffer") ∧
  PeerServer.on_message [alice; bob] all_open alice (Some offer) =
    PeerServer.Reaction [alice; bob] [(bob, Encoded offer)] Returned.
Proof.
  assert (PeerServer.reachable [alice; bob]) as H.
  { apply (PeerServer.reachable_event [alice] all_open
             (PeerServer.Connection bob)).
    apply (PeerServer.reachable_event [] all_open
             (PeerServer.Connection alice)).
    constructor. }
  assert (prop offer "type" = Some (JStr "createOffer")) as Ht by reflexivity.
  assert ("createOffer" ∈ ["createOffer"; "createAnswer"; "iceCandidate"])
    as Hin by apply list_elem_of_here.
  split; [exact H |]. split; [exact Ht |].
  destruct (relay_fan_out [alice; bob] all_open alice offer "createOffer"
              H Ht Hin) as [Heq _].
  rewrite Heq. vm_compute. reflexivity.
Defined.

(** X15. Every frame of the relay is accounted for, and a message never
    changes who is connected: a frame the message callback sends is either
    the one error envelope of this call, sent to the sender and alone, or
    the received message re-encoded, of one of the three negotiation types,
    sent to a peer other than the sender whose readyState is OPEN; and the
    set of peers after the callback is the set before. *)
Theorem peer_frames_accounted (peers : list WebSocket)
    (readyState : WebSocket → ready_state) (ws : WebSocket)
    (data : option json) :
  PeerServer.after (PeerServer.on_message peers readyState ws data) = peers ∧
  ∀ c f,
    (c, f) ∈ PeerServer.sent (PeerServer.on_message peers readyState ws data) →
    (c = ws ∧ ∃ reason,
       f = ErrorEnvelope reason ∧
       PeerServer.sent (PeerServer.on_message peers readyState ws data) =
         [(ws, ErrorEnvelope reason)]) ∨
    (c ≠ ws ∧ c ∈ peers ∧ readyState c = OPEN ∧
     ∃ message type,
       data = Some message ∧ f = Encoded message ∧
       prop message "type" = Some (JStr type) ∧
       type ∈ ["createOffer"; "createAnswer"; "iceCandidate"]).
Proof.
  split; [apply peer_message_after |]. intros c f.
  unfold PeerServer.on_message.
  destruct data as [message|]; simpl.
  2: { intros [= -> ->]%list_elem_of_singleton. left. eauto. }
  assert (∀ reason, (c, f) ∈ [(ws, ErrorEnvelope reason)] →
          c = ws ∧ ∃ reason', f = ErrorEnvelope reason' ∧
            [(ws, ErrorEnvelope reason)] = [(ws, ErrorEnvelope reason')])
    as Herr.
  { intros reason [= -> ->]%list_elem_of_singleton. eauto. }
  destruct message as [|b|x|s|a l|a l]; simpl;
    try (by intros ?%elem_of_nil); try (intros Hin; left; by eapply Herr).
  destruct (own l "type") as [[|b|x|s|a' l'|a' l']|] eqn:Htype; simpl;
    try (intros Hin; left; by eapply Herr).
  destruct (PeerServer.relayed s) eqn:Hrel; simpl.
  - intros (-> & Hc & Hne & Hopen)%elem_of_fan_out. right.
    split_and!; [done..|]. exists (JObj a l), s.
    split_and!; [done | done | done | by apply relayed_spec].
  - intros Hin. left. by eapply Herr.
Qed.

(** X16. The set of peers follows the sockets: in any set the relay
    reaches no socket is held twice; after the connection callback the
    socket is a peer and after its close callback it is not, the other
    peers staying in both cases; and connection followed by close of a new
    socket gives back the set as it was. *)
Theorem peers_follow_sockets (peers : list WebSocket) (ws : WebSocket) :
  PeerServer.reachable peers →
  NoDup peers ∧
  (∀ c, c ∈ PeerServer.after (PeerServer.on_connection peers ws) ↔
        c = ws ∨ c ∈ peers) ∧
  (∀ c, c ∈ PeerServer.after (PeerServer.on_close peers ws) ↔
        c ≠ ws ∧ c ∈ peers) ∧
  (ws ∉ peers →
   PeerServer.after
     (PeerServer.on_close
        (PeerServer.after (PeerServer.on_connection peers ws)) ws) = peers) ∧
  (ws ∈ peers →
   PeerServer.after (PeerServer.on_connection peers ws) = peers).
Proof.
  intros Hreach. split_and!; simpl.
  - by apply peers_nodup.
  - intros c. apply elem_of_set_add.
  - intros c. apply elem_of_set_delete.
  - intros Hnew. by apply set_delete_add.
  - intros Hold. unfold set_add. by rewrite decide_True.
Qed.

Lemma peers_follow_sockets_witness :
  PeerServer.reachable [] ∧
  PeerServer.after
    (PeerServer.on_close
       (PeerServer.after (PeerServer.on_connection [] alice)) alice) = [].
Proof.
  assert (PeerServer.reachable []) as H by constructor.
  split; [exact H |].
  destruct (peers_follow_sockets [] alice H) as (_ & _ & _ & Hround & _).
  apply Hround. apply not_elem_of_nil.
Defined.
